(** * Ask-the-video: transcript acquisition and cross-context state

    A shallow embedding of the page-context content script (extraction
    coordinator), of the background transcript handler (per-tab stores) and
    of the caption-track ranking policy, with the properties the
    specification states about them. *)

From Stdlib Require Import ZArith QArith List String Ascii Bool Lia Permutation
  DecimalString.
From stdpp Require Import gmap strings list.

Local Open Scope string_scope.
Local Open Scope list_scope.
Local Open Scope Z_scope.

(** ** The browser's URL interface

    [window.location] and [URLSearchParams] are platform objects; they are
    modelled here after the URL standard, on byte strings. *)
Module Url.

(** The parts of [window.location] the content script reads.  The port is
    left out: [href] is written for the scheme's default port.  [href] is
    put together from the parts, so an empty query or fragment that the
    address still marks with a bare [?] or [#] is not told apart from none;
    the properties below use [href] through equality only and hold for
    every [Location]. *)
Record Location := {
  protocol : string;
  hostname : string;
  pathname : string;
  search : string;
  hash : string
}.

Definition href (l : Location) : string :=
  protocol l +:+ "//" +:+ hostname l +:+ pathname l +:+ search l +:+ hash l.

(** [String.prototype.includes]. *)
Fixpoint includes (needle hay : string) : bool :=
  String.prefix needle hay
  || match hay with
     | EmptyString => false
     | String _ rest => includes needle rest
     end.

Definition hex_digit (c : ascii) : option nat :=
  let n := nat_of_ascii c in
  if (48 <=? n)%nat && (n <=? 57)%nat then Some (n - 48)%nat
  else if (65 <=? n)%nat && (n <=? 70)%nat then Some (n - 55)%nat
  else if (97 <=? n)%nat && (n <=? 102)%nat then Some (n - 87)%nat
  else None.

(** Percent-decoding of the URL standard: [%XY] with two hexadecimal digits
    is one byte, any other [%] stands for itself. *)
Fixpoint percent_decode (s : string) : string :=
  match s with
  | EmptyString => EmptyString
  | String c rest =>
      if Ascii.eqb c "%" then
        match rest with
        | String h (String l rest') =>
            match hex_digit h, hex_digit l with
            | Some a, Some b =>
                String (ascii_of_nat (16 * a + b)) (percent_decode rest')
            | _, _ => String c (percent_decode rest)
            end
        | _ => String c (percent_decode rest)
        end
      else String c (percent_decode rest)
  end.

Fixpoint plus_to_space (s : string) : string :=
  match s with
  | EmptyString => EmptyString
  | String c rest =>
      String (if Ascii.eqb c "+" then " "%char else c) (plus_to_space rest)
  end.

(** [split_on sep s]: the pieces of [s] between occurrences of [sep]. *)
Fixpoint split_on (sep : ascii) (s : string) : list string :=
  match s with
  | EmptyString => [EmptyString]
  | String c rest =>
      if Ascii.eqb c sep then EmptyString :: split_on sep rest
      else match split_on sep rest with
           | [] => [String c EmptyString]
           | piece :: pieces => String c piece :: pieces
           end
  end.

(** A name/value sequence is cut at its first [=]; without one the value is
    empty. *)
Fixpoint cut_at_eq (s : string) : string * string :=
  match s with
  | EmptyString => (EmptyString, EmptyString)
  | String c rest =>
      if Ascii.eqb c "=" then (EmptyString, rest)
      else let '(name, value) := cut_at_eq rest in (String c name, value)
  end.

Definition decode_component (s : string) : string :=
  percent_decode (plus_to_space s).

Definition strip_question_mark (s : string) : string :=
  match s with
  | String c rest => if Ascii.eqb c "?" then rest else s
  | EmptyString => s
  end.

(** [new URLSearchParams(init)]: the application/x-www-form-urlencoded
    parser.  The decoded bytes are kept as they are; the standard then
    reads them as UTF-8 and replaces what is not valid by U+FFFD, so two
    values that differ here only in invalid bytes are one value there. *)
Definition URLSearchParams (init : string) : list (string * string) :=
  map (fun piece =>
         let '(name, value) := cut_at_eq piece in
         (decode_component name, decode_component value))
      (List.filter (fun piece => negb (String.eqb piece EmptyString))
              (split_on "&" (strip_question_mark init))).

(** [URLSearchParams.prototype.get]: the first value under [name], or
    [null]. *)
Fixpoint get (name : string) (params : list (string * string)) : option string :=
  match params with
  | [] => None
  | (n, v) :: rest => if String.eqb n name then Some v else get name rest
  end.

End Url.

(** ** Transcript results and the message vocabulary *)
Module Transcript.

Record TranscriptSegment := {
  start : Q;
  duration : Q;
  text : string
}.

Record VideoMetadata := {
  title : option string;
  channelName : option string
}.

(** Modelled from the spec: the declaration of [TranscriptResult] is in
    youtubeTranscript.ts, which is not among the sources.  The fields are
    the ones the content script and the background handler read
    ([success], [videoId], [transcript], [metadata], [error]); an absent
    optional field is [None]. *)
Record TranscriptResult := {
  success : bool;
  videoId : option string;
  transcript : option (list TranscriptSegment);
  metadata : option VideoMetadata;
  error : option string
}.

End Transcript.

Module Protocol.
Import Transcript.

(** The members of the enum [WorkerMessageTypes]: at run time they are
    these strings. *)
Module WorkerMessageTypes.
Definition sidebarLoaded : string := "sidebarLoaded".
Definition panelState : string := "panelState".
Definition transcriptLoaded : string := "transcriptLoaded".
Definition transcriptError : string := "transcriptError".
Definition sendChatMessage : string := "sendChatMessage".
Definition chatResponse : string := "chatResponse".
Definition getTranscript : string := "getTranscript".
Definition transcriptResponse : string := "transcriptResponse".
Definition navigationStarted : string := "navigationStarted".
Definition noVideoPage : string := "noVideoPage".
Definition tabStateRequest : string := "tabStateRequest".
End WorkerMessageTypes.

(** A [{type, payload}] envelope, one constructor per message kind with
    the payload its senders give it. *)
Inductive Message :=
| SidebarLoaded (payload : bool)
| PanelState
| TranscriptLoaded (payload : TranscriptResult)
| TranscriptError (error : option string)
| SendChatMessage (question : string)
| ChatResponse (response : string)
| GetTranscript
| TranscriptResponse
| NavigationStarted (videoId : option string)
| NoVideoPage
| TabStateRequest
| SeekVideo (seconds : option Q).

Definition type (m : Message) : string :=
  match m with
  | SidebarLoaded _ => WorkerMessageTypes.sidebarLoaded
  | PanelState => WorkerMessageTypes.panelState
  | TranscriptLoaded _ => WorkerMessageTypes.transcriptLoaded
  | TranscriptError _ => WorkerMessageTypes.transcriptError
  | SendChatMessage _ => WorkerMessageTypes.sendChatMessage
  | ChatResponse _ => WorkerMessageTypes.chatResponse
  | GetTranscript => WorkerMessageTypes.getTranscript
  | TranscriptResponse => WorkerMessageTypes.transcriptResponse
  | NavigationStarted _ => WorkerMessageTypes.navigationStarted
  | NoVideoPage => WorkerMessageTypes.noVideoPage
  | TabStateRequest => WorkerMessageTypes.tabStateRequest
  | SeekVideo _ => "seekVideo"
  end.

(** What [sendResponse] is called with: [{success: true, data}] or
    [{success: false, error}]. *)
Inductive Response :=
| ResponseData (data : TranscriptResult)
| ResponseError (error : string).

End Protocol.

(** ** The content script (page context) *)
Module ContentScript.
Import Url Transcript Protocol.

Inductive Callback :=
| CbInitializeContentScript
| CbExtractAndSendTranscript.

(** A pending [setTimeout]: the time from which it may run, and what it
    runs. *)
Record Timer := {
  deadline : Z;
  callback : Callback
}.

(** How the promise of [extractVideoTranscript()] settles. *)
Inductive Settlement :=
| Fulfilled (result : TranscriptResult)
| RejectedError (message : string)
| RejectedOther.

(** What the script does to the world outside its variables. *)
Inductive Effect :=
| Sent (m : Message)
| Responded (r : Response)
| Extraction (urlVideoId : option string)
| Seek (seconds : Q).
(* [Extraction v] is a call of [extractVideoTranscript()], made while the
   URL's video identifier is [v]; [Seek s] is the call
   [seekVideoToTimestamp(s)], whose work on the video element is not
   modelled. *)

(** The page context: the URL and the clock of the browser, the script's
    three variables, and the event loop's pending work.  [awaiting] holds
    the calls of [extractAndSendTranscript] suspended at their [await],
    each with its local [videoId]; [log] lists the effects, oldest first. *)
Record Page := {
  location : Location;
  clock : Z;
  currentVideoId : option string;
  transcriptCache : option TranscriptResult;
  lastUrl : string;
  listening : bool;
  timers : list Timer;
  awaiting : list (option string);
  log : list Effect
}.

Definition setLocation (l : Location) (p : Page) : Page :=
  {| location := l; clock := clock p;
     currentVideoId := currentVideoId p; transcriptCache := transcriptCache p;
     lastUrl := lastUrl p; listening := listening p;
     timers := timers p; awaiting := awaiting p; log := log p |}.

Definition setClock (t : Z) (p : Page) : Page :=
  {| location := location p; clock := t;
     currentVideoId := currentVideoId p; transcriptCache := transcriptCache p;
     lastUrl := lastUrl p; listening := listening p;
     timers := timers p; awaiting := awaiting p; log := log p |}.

Definition setCache (v : option string) (c : option TranscriptResult)
    (p : Page) : Page :=
  {| location := location p; clock := clock p;
     currentVideoId := v; transcriptCache := c;
     lastUrl := lastUrl p; listening := listening p;
     timers := timers p; awaiting := awaiting p; log := log p |}.

Definition setLastUrl (u : string) (p : Page) : Page :=
  {| location := location p; clock := clock p;
     currentVideoId := currentVideoId p; transcriptCache := transcriptCache p;
     lastUrl := u; listening := listening p;
     timers := timers p; awaiting := awaiting p; log := log p |}.

Definition setListening (b : bool) (p : Page) : Page :=
  {| location := location p; clock := clock p;
     currentVideoId := currentVideoId p; transcriptCache := transcriptCache p;
     lastUrl := lastUrl p; listening := b;
     timers := timers p; awaiting := awaiting p; log := log p |}.

Definition setTimers (ts : list Timer) (p : Page) : Page :=
  {| location := location p; clock := clock p;
     currentVideoId := currentVideoId p; transcriptCache := transcriptCache p;
     lastUrl := lastUrl p; listening := listening p;
     timers := ts; awaiting := awaiting p; log := log p |}.

Definition setAwaiting (a : list (option string)) (p : Page) : Page :=
  {| location := location p; clock := clock p;
     currentVideoId := currentVideoId p; transcriptCache := transcriptCache p;
     lastUrl := lastUrl p; listening := listening p;
     timers := timers p; awaiting := a; log := log p |}.

Definition emit (e : Effect) (p : Page) : Page :=
  {| location := location p; clock := clock p;
     currentVideoId := currentVideoId p; transcriptCache := transcriptCache p;
     lastUrl := lastUrl p; listening := listening p;
     timers := timers p; awaiting := awaiting p; log := log p ++ [e] |}.

(** [setTimeout(cb, delay)]. *)
Definition setTimeout (cb : Callback) (delay : Z) (p : Page) : Page :=
  setTimers (timers p ++ [{| deadline := clock p + delay; callback := cb |}]) p.

Definition isYouTubeVideoPage (l : Location) : bool :=
  String.eqb (hostname l) "www.youtube.com"
  && String.eqb (pathname l) "/watch"
  && includes "v=" (search l).

Definition getVideoId (l : Location) : option string :=
  get "v" (URLSearchParams (search l)).

(** [extractAndSendTranscript], up to its [await]: either the early
    return, or the call of [extractVideoTranscript()] with the call left
    suspended. *)
Definition extractAndSendTranscript (p : Page) : Page :=
  let videoId := getVideoId (location p) in
  if bool_decide (videoId = currentVideoId p)
     && bool_decide (is_Some (transcriptCache p))
  then p
  else setAwaiting (awaiting p ++ [videoId]) (emit (Extraction videoId) p).

(** [extractAndSendTranscript], from its [await] on: the rest of the [try]
    block when the promise is fulfilled, the [catch] block when it is
    rejected. *)
Definition extractAndSendTranscript_resume (videoId : option string)
    (s : Settlement) (p : Page) : Page :=
  match s with
  | Fulfilled result =>
      let p := setCache videoId (Some result) p in
      if success result then emit (Sent (TranscriptLoaded result)) p
      else emit (Sent (TranscriptError (error result))) p
  | RejectedError message => emit (Sent (TranscriptError (Some message))) p
  | RejectedOther => emit (Sent (TranscriptError (Some "Unknown error"))) p
  end.

Definition initializeContentScript (p : Page) : Page :=
  let p := emit (Sent (SidebarLoaded true)) p in
  if isYouTubeVideoPage (location p)
  then setTimeout CbExtractAndSendTranscript 1500 p
  else p.

(** The script's top level, run once when it is injected at time [t] into
    a page at [l]; [loading] is [document.readyState === 'loading']. *)
Definition load (loading : bool) (l : Location) (t : Z) : Page :=
  let p := {| location := l; clock := t;
              currentVideoId := None; transcriptCache := None;
              lastUrl := href l; listening := loading;
              timers := []; awaiting := []; log := [] |} in
  if loading then p else setTimeout CbInitializeContentScript 100 p.

(** The [MutationObserver] callback. *)
Definition mutationObserver (p : Page) : Page :=
  let url := href (location p) in
  if negb (String.eqb url (lastUrl p)) then
    let p := setLastUrl url p in
    if isYouTubeVideoPage (location p) then
      setTimeout CbExtractAndSendTranscript 2500 (setCache None None p)
    else setCache None None p
  else p.

(** The [chrome.runtime.onMessage] listener. *)
Definition onMessage (m : Message) (p : Page) : Page :=
  match m with
  | GetTranscript =>
      match transcriptCache p with
      | Some cached => emit (Responded (ResponseData cached)) p
      | None => emit (Responded (ResponseError "No transcript available")) p
      end
  | SeekVideo seconds =>
      match seconds with
      | Some s => emit (Seek s) p
      | None => p
      end
  | _ => p
  end.

Definition runCallback (cb : Callback) (p : Page) : Page :=
  match cb with
  | CbInitializeContentScript => initializeContentScript p
  | CbExtractAndSendTranscript => extractAndSendTranscript p
  end.

(** What the event loop of the page delivers to the script. *)
Inductive Event :=
| Navigate (l : Location)
| Advance (dt : Z)
| DOMContentLoaded
| Mutation
| Timeout (i : nat)
| Settle (i : nat) (s : Settlement)
| OnMessage (m : Message).

(** One turn of the event loop.  A timer runs only from its deadline on; an
    event with nothing to run leaves the page as it is. *)
Definition step (p : Page) (e : Event) : Page :=
  match e with
  | Navigate l => setLocation l p
  | Advance dt => setClock (clock p + Z.max 0 dt) p
  | DOMContentLoaded =>
      if listening p then initializeContentScript (setListening false p)
      else p
  | Mutation => mutationObserver p
  | Timeout i =>
      match timers p !! i with
      | Some t =>
          if deadline t <=? clock p
          then runCallback (callback t) (setTimers (delete i (timers p)) p)
          else p
      | None => p
      end
  | Settle i s =>
      match awaiting p !! i with
      | Some videoId =>
          extractAndSendTranscript_resume videoId s
            (setAwaiting (delete i (awaiting p)) p)
      | None => p
      end
  | OnMessage m => onMessage m p
  end.

Definition run (p : Page) (evs : list Event) : Page := fold_left step evs p.

(** The calls of [extractVideoTranscript()] so far, each with the video
    identifier the URL had at the call. *)
Definition extractionsOf (effs : list Effect) : list (option string) :=
  omap (fun e => match e with Extraction v => Some v | _ => None end) effs.

Definition extractions (p : Page) : list (option string) :=
  extractionsOf (log p).

(** The effects between an earlier page [p] and a later one [p']. *)
Definition since (p p' : Page) : list Effect :=
  drop (length (log p)) (log p').

(** The URLs the observer sees, one per [Mutation] of the run. *)
Fixpoint observed (p : Page) (evs : list Event) : list Location :=
  match evs with
  | [] => []
  | e :: evs' =>
      match e with
      | Mutation => location p :: observed (step p e) evs'
      | _ => observed (step p e) evs'
      end
  end.

Definition isNavigate (e : Event) : bool :=
  match e with Navigate _ => true | _ => false end.

(** The time a run lets pass. *)
Fixpoint elapsed (evs : list Event) : Z :=
  match evs with
  | [] => 0
  | Advance dt :: evs' => Z.max 0 dt + elapsed evs'
  | _ :: evs' => elapsed evs'
  end.

(** The observer reads the same video identifier at every tick of the
    run. *)
Definition sameVideoAtEveryTick (p : Page) (evs : list Event) : Prop :=
  Forall (fun l => getVideoId l = getVideoId (location p)) (observed p evs).

(** The observer reads the URL it saw last at every tick of the run. *)
Definition sameUrlAtEveryTick (p : Page) (evs : list Event) : Prop :=
  Forall (fun l => href l = lastUrl p) (observed p evs).

(** No video identifier was given to [extractVideoTranscript()] twice. *)
Definition fetchedOncePerVideo (p : Page) : Prop := NoDup (extractions p).

(** The budget of extractions still possible without a new URL: each
    listener or timer can lead to at most one. *)
Definition budget (p : Page) : nat :=
  ((if listening p then 1 else 0) + length (timers p) + length (extractions p))%nat.

(** On a page that stays at [l] from its load on, either no extraction
    was started and exactly one listener or timer is pending, or the one
    extraction was started, for the video of [l], and nothing can start
    another. *)
Definition onceOnly (l : Location) (p : Page) : Prop :=
  location p = l /\ lastUrl p = href l
  /\ ((extractions p = [] /\ transcriptCache p = None /\ awaiting p = []
       /\ ((if listening p then 1 else 0) + length (timers p) = 1)%nat)
      \/ (extractions p = [getVideoId l] /\ listening p = false /\ timers p = [])).

(** Nothing pending: no listener, no timer, no suspended call. *)
Definition quiescent (p : Page) : Prop :=
  listening p = false /\ timers p = [] /\ awaiting p = [].

(** While the observer waits at [l]: nothing is suspended, the pending
    timers are [ts], and no extraction was started since the log was
    [base]. *)
Definition waiting (base : list Effect) (l : Location) (ts : list Timer)
    (p : Page) : Prop :=
  location p = l /\ lastUrl p = href l /\ listening p = false
  /\ awaiting p = [] /\ timers p = ts
  /\ exists k, log p = base ++ k /\ extractionsOf k = [].

(** After the navigation back to [l]: every timer runs
    [extractAndSendTranscript], every suspended call and every cached result
    is keyed by the video of [l], and the pending timers and the extractions
    started since the log was [base] are at most two together. *)
Record settling (base : list Effect) (l : Location) (p : Page) : Prop := {
  settling_location : location p = l;
  settling_lastUrl : lastUrl p = href l;
  settling_listening : listening p = false;
  settling_timers :
    Forall (fun t => callback t = CbExtractAndSendTranscript) (timers p);
  settling_awaiting : Forall (fun v => v = getVideoId l) (awaiting p);
  settling_cache : is_Some (transcriptCache p) -> currentVideoId p = getVideoId l;
  settling_log :
    exists k, log p = base ++ k
      /\ Forall (fun v => v = getVideoId l) (extractionsOf k)
      /\ (length (timers p) + length (extractionsOf k) <= 2)%nat
}.

(** The page has settled on the video of [l]: nothing is pending and the
    cache holds a result under that video's identifier. *)
Definition settledOn (l : Location) (p : Page) : Prop :=
  quiescent p
  /\ currentVideoId p = getVideoId l
  /\ is_Some (transcriptCache p).

End ContentScript.

(** ** The background transcript handler (per-tab stores) *)
Module Background.
Import Transcript Protocol.

Inductive Role := user | assistant.

Record ChatMessage := {
  role : Role;
  content : string;
  timestamp : Z
}.

(** The two module-level maps, keyed by tab identifier. *)
Record State := {
  transcriptStore : gmap Z TranscriptResult;
  chatHistoryStore : gmap Z (list ChatMessage)
}.

(** An entry of the array [chrome.tabs.query] passes to its callback. *)
Record Tab := { id : option Z }.

(** The callbacks the handler gives to
    [chrome.tabs.query({active: true, currentWindow: true}, ...)]. *)
Inductive Query :=
| QGetTranscript
| QSendChatMessage (question : string)
| QChatResponse (response : string).

(** What a listener does besides returning: messages to the panel,
    responses, queries left with the browser, and the calls that change
    one of the two maps. *)
Inductive Effect :=
| Forwarded (m : Message)
| Responded (r : Response)
| TabsQuery (q : Query)
| TranscriptStoreSet (tabId : Z) (r : TranscriptResult)
| TranscriptStoreDelete (tabId : Z)
| ChatHistoryStoreSet (tabId : Z) (history : list ChatMessage)
| ChatHistoryStoreDelete (tabId : Z).

(** Truthiness of a number that is an integer. *)
Definition truthy (n : Z) : bool := negb (n =? 0).

(** [if (x)] for [x : number | undefined]. *)
Definition defined_truthy (x : option Z) : option Z :=
  match x with
  | Some n => if truthy n then Some n else None
  | None => None
  end.

(** [tabs[0]?.id] *)
Definition firstTabId (tabs : list Tab) : option Z :=
  match tabs with
  | [] => None
  | t :: _ => id t
  end.

Definition setTranscriptStore (m : gmap Z TranscriptResult) (st : State) : State :=
  {| transcriptStore := m; chatHistoryStore := chatHistoryStore st |}.

Definition setChatHistoryStore (m : gmap Z (list ChatMessage)) (st : State) : State :=
  {| transcriptStore := transcriptStore st; chatHistoryStore := m |}.

(** The [chrome.runtime.onMessage] listener; [senderTab] is
    [sender.tab?.id]. *)
Definition onMessage (senderTab : option Z) (m : Message) (st : State)
    : State * list Effect :=
  match m with
  | TranscriptLoaded payload =>
      match defined_truthy senderTab with
      | Some tabId =>
          let previousTranscript := transcriptStore st !! tabId in
          let isNewVideo :=
            negb (bool_decide (previousTranscript ≫= videoId = videoId payload)) in
          let st := setTranscriptStore (<[tabId := payload]> (transcriptStore st)) st in
          if isNewVideo && bool_decide (is_Some (chatHistoryStore st !! tabId))
          then (setChatHistoryStore (delete tabId (chatHistoryStore st)) st,
                [TranscriptStoreSet tabId payload;
                 ChatHistoryStoreDelete tabId;
                 Forwarded (TranscriptLoaded payload)])
          else (st,
                [TranscriptStoreSet tabId payload;
                 Forwarded (TranscriptLoaded payload)])
      | None => (st, [])
      end
  | TranscriptError payload => (st, [Forwarded (TranscriptError payload)])
  | GetTranscript => (st, [TabsQuery QGetTranscript])
  | SendChatMessage question => (st, [TabsQuery (QSendChatMessage question)])
  | ChatResponse response => (st, [TabsQuery (QChatResponse response)])
  | _ => (st, [])
  end.

(** [history.push(entry); chatHistoryStore.set(currentTabId, history)],
    with [history] the stored array or a new empty one. *)
Definition pushHistory (tabId : Z) (entry : ChatMessage) (st : State)
    : State * list Effect :=
  let history := default [] (chatHistoryStore st !! tabId) ++ [entry] in
  (setChatHistoryStore (<[tabId := history]> (chatHistoryStore st)) st,
   [ChatHistoryStoreSet tabId history]).

(** The callbacks of the three queries, run with the browser's answer
    [tabs]; [now] is [Date.now()]. *)
Definition queryCallback (q : Query) (tabs : list Tab) (now : Z) (st : State)
    : State * list Effect :=
  let currentTabId := firstTabId tabs in
  match q with
  | QGetTranscript =>
      match defined_truthy currentTabId ≫= (fun t => transcriptStore st !! t) with
      | Some stored => (st, [Responded (ResponseData stored)])
      | None =>
          (st, [Responded (ResponseError "No transcript available for current tab")])
      end
  | QSendChatMessage question =>
      match defined_truthy currentTabId with
      | Some t =>
          pushHistory t {| role := user; content := question; timestamp := now |} st
      | None => (st, [])
      end
  | QChatResponse response =>
      match defined_truthy currentTabId with
      | Some t =>
          pushHistory t {| role := assistant; content := response; timestamp := now |} st
      | None => (st, [])
      end
  end.

(** The [chrome.tabs.onRemoved] listener. *)
Definition onRemoved (tabId : Z) (st : State) : State * list Effect :=
  ({| transcriptStore := delete tabId (transcriptStore st);
      chatHistoryStore := delete tabId (chatHistoryStore st) |},
   [TranscriptStoreDelete tabId; ChatHistoryStoreDelete tabId]).

(** [getTranscriptForCurrentTab]: what its promise resolves to when the
    query answers [tabs]. *)
Definition getTranscriptForCurrentTab (st : State) (tabs : list Tab)
    : option TranscriptResult :=
  defined_truthy (firstTabId tabs) ≫= (fun tabId => transcriptStore st !! tabId).

(** [getChatHistoryForCurrentTab], likewise. *)
Definition getChatHistoryForCurrentTab (st : State) (tabs : list Tab)
    : list ChatMessage :=
  default [] (defined_truthy (firstTabId tabs)
              ≫= (fun tabId => chatHistoryStore st !! tabId)).

(** What the service worker is woken up with. *)
Inductive Event :=
| OnMessage (senderTab : option Z) (m : Message)
| OnQueryResult (q : Query) (tabs : list Tab) (now : Z)
| OnRemoved (tabId : Z).

Definition step (st : State) (e : Event) : State * list Effect :=
  match e with
  | OnMessage senderTab m => onMessage senderTab m st
  | OnQueryResult q tabs now => queryCallback q tabs now st
  | OnRemoved tabId => onRemoved tabId st
  end.

Fixpoint run (st : State) (evs : list Event) : State * list Effect :=
  match evs with
  | [] => (st, [])
  | e :: evs' =>
      let '(st1, effs1) := step st e in
      let '(st2, effs2) := run st1 evs' in
      (st2, effs1 ++ effs2)
  end.

(** The service worker starts with both maps empty. *)
Definition initial : State :=
  {| transcriptStore := ∅; chatHistoryStore := ∅ |}.

Definition reachable (st : State) : Prop :=
  exists evs : list Event, fst (run initial evs) = st.

(** The event neither comes from tab [t] nor is answered with [t] as the
    active tab. *)
Definition silentAbout (t : Z) (e : Event) : Prop :=
  match e with
  | OnMessage senderTab _ => senderTab ≠ Some t
  | OnQueryResult _ tabs _ => firstTabId tabs ≠ Some t
  | OnRemoved _ => True
  end.

(** How many times [chatHistoryStore.delete(t)] is among the effects. *)
Definition chatHistoryDeletions (t : Z) (effs : list Effect) : nat :=
  length (List.filter (fun e => match e with
                                | ChatHistoryStoreDelete t' => bool_decide (t' = t)
                                | _ => false
                                end) effs).

(** The reading of "the store records the error for the tab": the tab's
    entry is a failure carrying the reported error. *)
Definition recordsError (st : State) (t : Z) (e : option string) : Prop :=
  exists r, transcriptStore st !! t = Some r /\ success r = false /\ error r = e.

End Background.

(** ** The caption-track ranking policy *)
Module TrackSelector.

Record CaptionTrack := {
  languageCode : string;
  isAutoGenerated : bool;
  baseUrl : string;
  trackName : string
}.

Inductive SelectError := NoCaptionsAvailable.

(** English by exact code, then by prefix of the language family, then the
    rest. *)
Definition languageRank (t : CaptionTrack) : nat :=
  if String.eqb (languageCode t) "en" then 0%nat
  else if String.prefix "en" (languageCode t) then 1%nat
  else 2%nat.

(** Manual tracks before automatic ones, and by language within each. *)
Definition rank (t : CaptionTrack) : nat :=
  ((if isAutoGenerated t then 3 else 0) + languageRank t)%nat.

(** The first track of least rank among [current :: rest]. *)
Fixpoint best (current : CaptionTrack) (rest : list CaptionTrack) : CaptionTrack :=
  match rest with
  | [] => current
  | t :: rest' =>
      if (rank t <? rank current)%nat then best t rest' else best current rest'
  end.

(** Modelled from the spec: the Track Selector is in youtubeTranscript.ts,
    which is not among the sources.  Its policy, in the spec's order:
    manually-created tracks rank above auto-generated ones; among tracks of
    the same status English ranks above others (exact code, then prefix);
    otherwise the first listed wins; an empty list fails with
    NoCaptionsAvailable. *)
Definition selectTrack (tracks : list CaptionTrack)
    : SelectError + CaptionTrack :=
  match tracks with
  | [] => inl NoCaptionsAvailable
  | t :: rest => inr (best t rest)
  end.

End TrackSelector.

(** ** Measures of the content script's runs *)
Module ContentScriptMeasures.
Import Url Transcript Protocol ContentScript.

(** The reports of extraction outcomes among the effects: the
    [transcriptLoaded] and [transcriptError] messages sent. *)
Definition isReport (e : Effect) : bool :=
  match e with
  | Sent (TranscriptLoaded _) | Sent (TranscriptError _) => true
  | _ => false
  end.

Definition reports (p : Page) : list Effect := List.filter isReport (log p).

Definition isSidebarLoaded (e : Effect) : bool :=
  match e with
  | Sent (SidebarLoaded _) => true
  | _ => false
  end.

Definition isInitializeTimer (t : Timer) : bool :=
  match callback t with
  | CbInitializeContentScript => true
  | CbExtractAndSendTranscript => false
  end.

(** The messages the content script has a [sendMessage] call for. *)
Definition scriptMessage (m : Message) : Prop :=
  match m with
  | SidebarLoaded payload => payload = true
  | TranscriptLoaded payload => success payload = true
  | TranscriptError _ => True
  | _ => False
  end.

Definition scriptEffect (e : Effect) : Prop :=
  match e with
  | Sent m => scriptMessage m
  | _ => True
  end.

(** The URL changes of a run. *)
Definition navigations (evs : list Event) : nat :=
  length (List.filter isNavigate evs).

(** One more extraction is possible while the observer has not yet seen
    the current URL. *)
Definition unseenUrl (p : Page) : nat :=
  if String.eqb (href (location p)) (lastUrl p) then 0%nat else 1%nat.

(** Whenever a video identifier is remembered, a result is cached with
    it: the two variables are set and cleared together. *)
Definition keyedCache (p : Page) : Prop :=
  transcriptCache p = None -> currentVideoId p = None.

(** The initialisation happens once: it is pending (as the listener or as
    the 100 ms timer) or [sidebarLoaded] has been sent, never both. *)
Definition initializedOnce (p : Page) : Prop :=
  ((if listening p then 1 else 0)
   + length (List.filter isInitializeTimer (timers p))
   + length (List.filter isSidebarLoaded (log p)) = 1)%nat.

(** Extractions started are the ones still suspended plus the ones
    reported. *)
Definition accounted (p : Page) : Prop :=
  (length (extractions p) = length (awaiting p) + length (reports p))%nat.

(** A page that is not a video page and is not navigated: nothing was
    extracted and nothing can be. *)
Record idle (l : Location) (p : Page) : Prop := {
  idle_location : location p = l;
  idle_lastUrl : lastUrl p = href l;
  idle_timers : Forall (fun t => callback t = CbInitializeContentScript) (timers p);
  idle_awaiting : awaiting p = [];
  idle_cache : transcriptCache p = None;
  idle_extractions : extractions p = []
}.

(** Since the log was [base], an extraction was started, or a timer is
    still pending while nothing is cached and nothing is suspended. *)
Definition pendingOrStarted (base : list Effect) (p : Page) : Prop :=
  forall k, log p = base ++ k ->
    (1 <= length (extractionsOf k))%nat
    \/ (timers p <> [] /\ transcriptCache p = None /\ awaiting p = []).

(** Once [transcriptLoaded] was sent since the log was [base], a result is
    cached. *)
Definition loadedIsCached (base : list Effect) (p : Page) : Prop :=
  forall k r, log p = base ++ k -> In (Sent (TranscriptLoaded r)) k ->
    is_Some (transcriptCache p).

End ContentScriptMeasures.

(** ** Chat entries and delivery to the background *)
Module BackgroundMeasures.
Import Transcript Protocol Background.

(** The query callback that files a chat entry: the one of
    [sendChatMessage] for the user's entries, of [chatResponse] for the
    assistant's. *)
Definition chatQuery (c : ChatMessage) : Query :=
  match role c with
  | user => QSendChatMessage (content c)
  | assistant => QChatResponse (content c)
  end.

(** The callbacks that file the entries [cs], each answered with [tabs] at
    the time the entry carries. *)
Definition chatEvents (tabs : list Tab) (cs : list ChatMessage) : list Event :=
  map (fun c => OnQueryResult (chatQuery c) tabs (timestamp c)) cs.

(** The background after the messages a content script running in tab
    [tabId] has sent, delivered in the order they were sent. *)
Definition deliver (tabId : Z) (effs : list ContentScript.Effect) (st : State)
    : State :=
  fold_left (fun st e => match e with
                         | ContentScript.Sent m => fst (onMessage (Some tabId) m st)
                         | _ => st
                         end) effs st.

(** The page's cache and the background's store agree on successes. *)
Definition inSync (tabId : Z) (st0 : State) (p : ContentScript.Page) : Prop :=
  forall r, ContentScript.transcriptCache p = Some r -> success r = true ->
    transcriptStore (deliver tabId (ContentScript.log p) st0) !! tabId = Some r.

End BackgroundMeasures.

(** ** Timestamp links (the side panel's utilities) *)
(** A string is the list of its code units, and an index counts them. *)
Module TimestampUtils.
Import Protocol.

(** What [parseTimestampLinks] renders: pieces of text, and links
    [<a key href onClick={() => seekToTimestamp(seconds)}>label</a>]. *)
Inductive Node :=
| Text (s : string)
| Anchor (key : nat) (href : string) (label : string) (seconds : Z).

(** The fragment of the parts, or the text itself when there are none. *)
Inductive Rendered :=
| Fragment (parts : list Node)
| Plain (text : string).

Definition isDigit (c : ascii) : bool :=
  let n := nat_of_ascii c in (48 <=? n)%nat && (n <=? 57)%nat.

(** The pieces of the regular expression
    [/\[(\d{1,2}):(\d{2})(?::(\d{2}))?\]/]: each gives the characters it
    consumes and the rest of the string. *)
Definition char (c : ascii) (s : string) : option (string * string) :=
  match s with
  | String c' rest => if Ascii.eqb c' c then Some (String c' EmptyString, rest) else None
  | EmptyString => None
  end.

Definition digit (s : string) : option (string * string) :=
  match s with
  | String c rest => if isDigit c then Some (String c EmptyString, rest) else None
  | EmptyString => None
  end.

Definition digits2 (s : string) : option (string * string) :=
  '(a, s1) ← digit s; '(b, s2) ← digit s1; Some (a +:+ b, s2).

(** A match: [match[0]] to [match[3]], and the text after it. *)
Record Match := {
  fullMatch : string;
  group1 : string;
  group2 : string;
  group3 : option string;
  after : string
}.

(** [\]] directly after the second group: the third group takes no part. *)
Definition closeShort (open g1 colon g2 : string) (s : string) : option Match :=
  '(close, s') ← char "]" s;
  Some {| fullMatch := open +:+ g1 +:+ colon +:+ g2 +:+ close;
          group1 := g1; group2 := g2; group3 := None; after := s' |}.

(** [(?::(\d{2}))?\]]: the optional group is tried first. *)
Definition closeLong (open g1 colon g2 : string) (s : string) : option Match :=
  '(colon', s1) ← char ":" s;
  '(g3, s2) ← digits2 s1;
  '(close, s') ← char "]" s2;
  Some {| fullMatch := open +:+ g1 +:+ colon +:+ g2 +:+ colon' +:+ g3 +:+ close;
          group1 := g1; group2 := g2; group3 := Some g3; after := s' |}.

(** [:(\d{2})(?::(\d{2}))?\]], after the first group. *)
Definition afterGroup1 (open g1 : string) (s : string) : option Match :=
  '(colon, s1) ← char ":" s;
  '(g2, s2) ← digits2 s1;
  match closeLong open g1 colon g2 s2 with
  | Some m => Some m
  | None => closeShort open g1 colon g2 s2
  end.

(** The regular expression matched at the start of [s]: [\d{1,2}] is
    greedy, so two digits are tried before one. *)
Definition matchAt (s : string) : option Match :=
  '(open, s0) ← char "[" s;
  match ('(g1, s1) ← digits2 s0; afterGroup1 open g1 s1) with
  | Some m => Some m
  | None => '(g1, s1) ← digit s0; afterGroup1 open g1 s1
  end.

Definition digitValue (c : ascii) : Z := Z.of_nat (nat_of_ascii c - 48).

Fixpoint parseIntFrom (acc : Z) (s : string) : Z :=
  match s with
  | String c rest =>
      if isDigit c then parseIntFrom (10 * acc + digitValue c) rest else acc
  | EmptyString => acc
  end.

(** [parseInt] of a string that starts with a decimal digit, as the
    groups of a match do: the value of its leading digits. *)
Definition parseInt (s : string) : Z := parseIntFrom 0 s.

Definition totalSeconds (m : Match) : Z :=
  let hours := match group3 m with Some _ => parseInt (group1 m) | None => 0 end in
  let minutes := match group3 m with
                 | Some _ => parseInt (group2 m)
                 | None => parseInt (group1 m)
                 end in
  let seconds := match group3 m with
                 | Some g3 => parseInt g3
                 | None => parseInt (group2 m)
                 end in
  hours * 3600 + minutes * 60 + seconds.

(** [Number.prototype.toString] of an integer. *)
Definition toString (z : Z) : string := NilZero.string_of_int (Z.to_int z).

Definition linkHref (videoId : string) (seconds : Z) : string :=
  "https://www.youtube.com/watch?v=" +:+ videoId +:+ "&t=" +:+ toString seconds +:+ "s".

Definition textPart (pending : string) : list Node :=
  match pending with
  | EmptyString => []
  | _ => [Text pending]
  end.

(** The [while ((match = timestampRegex.exec(text)) !== null)] loop and
    the push after it, as one pass over the text from position [index]:
    [pending] is [text.substring(lastIndex, index)], and [skip] counts the
    characters of the last match still to pass. *)
Fixpoint scan (videoId : string) (s : string) (skip : nat) (pending : string)
    (index : nat) : list Node :=
  match s with
  | EmptyString => textPart pending
  | String c rest =>
      match skip with
      | S skip' => scan videoId rest skip' pending (S index)
      | O =>
          match matchAt s with
          | Some m =>
              textPart pending
              ++ Anchor index (linkHref videoId (totalSeconds m)) (fullMatch m)
                   (totalSeconds m)
              :: scan videoId rest (String.length (fullMatch m) - 1) EmptyString
                   (S index)
          | None => scan videoId rest O (pending +:+ String c EmptyString) (S index)
          end
      end
  end.

Definition parseTimestampLinks (text videoId : string) : Rendered :=
  match scan videoId text 0 EmptyString 0 with
  | [] => Plain text
  | parts => Fragment parts
  end.

(** [s.padStart(2, '0')]. *)
Definition padStart2 (s : string) : string :=
  match String.length s with
  | O => "00" +:+ s
  | S O => "0" +:+ s
  | _ => s
  end.

(** [formatTimestamp] on a whole number of seconds: [Math.floor] of a
    quotient is [Z.div], [%] is the remainder that takes the sign of the
    dividend. *)
Definition formatTimestamp (seconds : Z) : string :=
  let hours := seconds / 3600 in
  let minutes := Z.rem seconds 3600 / 60 in
  let secs := Z.rem seconds 60 in
  if 0 <? hours
  then toString hours +:+ ":" +:+ padStart2 (toString minutes)
       +:+ ":" +:+ padStart2 (toString secs)
  else toString minutes +:+ ":" +:+ padStart2 (toString secs).

(** [seekToTimestamp], run with the answer [tabs] of its query: the tab
    and the message given to [chrome.tabs.sendMessage], if any. *)
Definition seekToTimestamp (seconds : Z) (tabs : list Background.Tab)
    : option (Z * Message) :=
  match Background.defined_truthy (Background.firstTabId tabs) with
  | Some tabId => Some (tabId, SeekVideo (Some (inject_Z seconds)))
  | None => None
  end.

(** The text a rendering shows. *)
Definition nodeText (n : Node) : string :=
  match n with
  | Text s => s
  | Anchor _ _ label _ => label
  end.

Fixpoint partsText (parts : list Node) : string :=
  match parts with
  | [] => EmptyString
  | n :: parts' => nodeText n +:+ partsText parts'
  end.

Definition textContent (r : Rendered) : string :=
  match r with
  | Fragment parts => partsText parts
  | Plain text => text
  end.

End TimestampUtils.

(** ** What is observed of the timestamp links *)
Module TimestampMeasures.
Import TimestampUtils.

(** The groups of a match are one or two digits, then two, then two. *)
Definition digitString (n : nat) (g : string) : Prop :=
  String.length g = n /\ 0 <= parseInt g < 10 ^ Z.of_nat n.

(** A part as [parseTimestampLinks] builds them: a text part is not empty,
    a link carries at most 99:99:99 and the watch URL at its time. *)
Definition wellFormed (videoId : string) (n : Node) : Prop :=
  match n with
  | Text s => s <> ""
  | Anchor _ href _ seconds =>
      0 <= seconds <= 362439 /\ href = linkHref videoId seconds
  end.

(** [s.includes(c)] for a character [c]. *)
Fixpoint hasChar (c : ascii) (s : string) : bool :=
  match s with
  | EmptyString => false
  | String c' rest => Ascii.eqb c' c || hasChar c rest
  end.

(** The check of one numeral [k]: padded to two characters it is two
    digits worth [k]; below ten it is a single digit, from ten on it needs
    no padding. *)
Definition numeralCheck (k : nat) : bool :=
  let z := Z.of_nat k in
  match padStart2 (toString z) with
  | String c1 (String c2 EmptyString) =>
      isDigit c1 && isDigit c2 && (10 * digitValue c1 + digitValue c2 =? z)
      && (if z <? 10
          then match toString z with
               | String c EmptyString => isDigit c && (digitValue c =? z)
               | _ => false
               end
          else String.eqb (toString z) (String c1 (String c2 EmptyString)))
  | _ => false
  end.

End TimestampMeasures.

(** ** Stored chats (the side panel) *)
Module VideoChat.
Import Background.

Record StoredChat := {
  chatId : string;
  chatVideoId : string;
  chatVideoTitle : string;
  messages : list ChatMessage;
  createdAt : Z;
  updatedAt : Z
}.

(** The panel's [videoInfo]: [videoTitle] may be [null]. *)
Record VideoInfo := {
  infoVideoId : string;
  infoVideoTitle : option string
}.

(** Truthiness of a string. *)
Definition nonEmpty (s : string) : bool := negb (String.eqb s EmptyString).

(** [x || fallback] for [x : string | null]. *)
Definition orElse (x : option string) (fallback : string) : string :=
  match x with
  | Some s => if nonEmpty s then s else fallback
  | None => fallback
  end.

(** [chats.findIndex(c => c.id === id)]; [None] is [-1]. *)
Fixpoint findIndex (id : string) (chats : list StoredChat) : option nat :=
  match chats with
  | [] => None
  | c :: chats' =>
      if String.eqb (chatId c) id then Some O
      else S <$> findIndex id chats'
  end.

(** The identifier [saveCurrentChat] files the chat under:
    [currentChatId || `${videoInfo.videoId}-${Date.now()}`]. *)
Definition chatIdFor (info : VideoInfo) (currentChatId : option string)
    (now : Z) : string :=
  orElse currentChatId
         (infoVideoId info +:+ "-" +:+ TimestampUtils.toString now).

(** [saveCurrentChat(messages)], run with the panel's [videoInfo] and
    [currentChatId], what [storageGetJson] gave ([None] is [null]), and the
    readings of [Date.now()] for the identifier, for [createdAt] and for
    [updatedAt].  The result is what is written to storage, and the new
    [currentChatId]; [None] is the early return, which writes nothing. *)
Definition saveCurrentChat (videoInfo : option VideoInfo)
    (currentChatId : option string) (msgs : list ChatMessage)
    (stored : option (list StoredChat)) (nowId nowCreated nowUpdated : Z)
    : option (list StoredChat * option string) :=
  match videoInfo with
  | None => None
  | Some info =>
      if negb (nonEmpty (infoVideoId info)) || (length msgs =? 0)%nat then None
      else
        let chats := default [] stored in
        let id := chatIdFor info currentChatId nowId in
        let existingIndex := findIndex id chats in
        let chat created :=
          {| chatId := id;
             chatVideoId := infoVideoId info;
             chatVideoTitle := orElse (infoVideoTitle info) "Untitled Video";
             messages := msgs;
             createdAt := created;
             updatedAt := nowUpdated |} in
        match existingIndex with
        | Some i =>
            let created := default nowCreated (createdAt <$> chats !! i) in
            Some (take 50 (<[i := chat created]> chats), currentChatId)
        | None =>
            Some (take 50 (chat nowCreated :: chats), Some id)
        end
  end.

(** [chats.find(c => c.id === id)]. *)
Definition findChat (id : string) (chats : list StoredChat) : option StoredChat :=
  findIndex id chats ≫= (fun i => chats !! i).

End VideoChat.

(** ** Sample data *)
Module Samples.
Import Url Transcript Protocol.

Definition watch (query : string) : Location :=
  {| protocol := "https:"; hostname := "www.youtube.com";
     pathname := "/watch"; search := query; hash := "" |}.

Definition home : Location :=
  {| protocol := "https:"; hostname := "www.youtube.com";
     pathname := "/"; search := ""; hash := "" |}.

Definition loaded (v : string) : TranscriptResult :=
  {| success := true; videoId := Some v;
     transcript := Some [{| start := 0; duration := 5; text := "Hello" |};
                         {| start := 5; duration := 3; text := "world" |}];
     metadata := Some {| title := Some "A title"; channelName := Some "A channel" |};
     error := None |}.

Definition failed (reason : string) : TranscriptResult :=
  {| success := false; videoId := None; transcript := None;
     metadata := None; error := Some reason |}.

End Samples.

Module ChatSamples.
Import Background VideoChat.

Definition question : ChatMessage :=
  {| role := user; content := "Summarize"; timestamp := 1700000000000 |}.

(** A chat of the video with identifier [v], saved at time [t]. *)
Definition chatOf (v : string) (t : Z) : StoredChat :=
  {| chatId := v +:+ "-" +:+ TimestampUtils.toString t; chatVideoId := v;
     chatVideoTitle := "Untitled Video"; messages := [question];
     createdAt := t; updatedAt := t |}.

(** Storage filled with [n] chats of one video, the newest first. *)
Definition storedChats (n : nat) : list StoredChat :=
  map (fun i => chatOf "ABC" (1700000000000 - Z.of_nat i)) (seq 0 n).

End ChatSamples.

(** ** Properties of the content script *)
Module ContentScriptFacts.
Import Url Transcript Protocol ContentScript Samples.

Lemma since_emit (p : Page) (e : Effect) : since p (emit e p) = [e].
Proof. unfold since, emit; simpl. by rewrite drop_app_length. Qed.

Lemma since_refl (p : Page) : since p p = [].
Proof. unfold since. by rewrite drop_all. Qed.

Lemma mutationObserver_same_url (p : Page) :
  href (location p) = lastUrl p -> mutationObserver p = p.
Proof.
  intros Hurl. unfold mutationObserver.
  by rewrite Hurl, String.eqb_refl.
Qed.

Lemma mutationObserver_new_url (p : Page) :
  href (location p) <> lastUrl p ->
  mutationObserver p =
    let q := setCache None None (setLastUrl (href (location p)) p) in
    if isYouTubeVideoPage (location p)
    then setTimeout CbExtractAndSendTranscript 2500 q else q.
Proof.
  intros Hurl. unfold mutationObserver.
  destruct (String.eqb_spec (href (location p)) (lastUrl p)) as [Heq | _];
    [contradiction | reflexivity].
Qed.

(** C3.  When the URL's video identifier is the cached [currentVideoId] and
    a result is cached, [extractAndSendTranscript] returns at once: the page
    is left exactly as it was (no call of [extractVideoTranscript], no
    message, the two variables unchanged), and so is it after any number of
    further calls. *)
Theorem extractAndSendTranscript_cached_noop (p : Page) :
  getVideoId (location p) = currentVideoId p ->
  is_Some (transcriptCache p) ->
  extractAndSendTranscript p = p
  /\ since p (extractAndSendTranscript p) = []
  /\ forall n : nat, Nat.iter n extractAndSendTranscript p = p.
Proof.
  intros Hid Hcache.
  assert (Hnoop : extractAndSendTranscript p = p).
  { unfold extractAndSendTranscript.
    rewrite (bool_decide_eq_true_2 _ Hid), (bool_decide_eq_true_2 _ Hcache).
    reflexivity. }
  split; [exact Hnoop | split].
  - rewrite Hnoop. apply since_refl.
  - induction n as [| n IH]; simpl; [reflexivity |].
    by rewrite IH.
Qed.

Lemma extractAndSendTranscript_cached_noop_witness :
  let p := run (load false (watch "?v=XYZ") 0)
             [Advance 100; Timeout 0; Advance 1500; Timeout 0;
              Settle 0 (Fulfilled (loaded "XYZ"))] in
  extractAndSendTranscript p = p
  /\ since p (extractAndSendTranscript p) = []
  /\ forall n : nat, Nat.iter n extractAndSendTranscript p = p.
Proof.
  apply extractAndSendTranscript_cached_noop.
  - reflexivity.
  - vm_compute. eauto.
Defined.

(** C8.  A [getTranscript] request is answered within its own turn and from
    the cache alone: with the cached result when there is one, with
    [{success: false, error: "No transcript available"}] when there is none;
    the answer is the turn's only effect, so no extraction is started and no
    timer is set, and the script's variables stay as they were. *)
Theorem getTranscript_answered_from_cache (p : Page) :
  let p' := step p (OnMessage GetTranscript) in
  since p p' =
    [Responded match transcriptCache p with
               | Some cached => ResponseData cached
               | None => ResponseError "No transcript available"
               end]
  /\ currentVideoId p' = currentVideoId p
  /\ transcriptCache p' = transcriptCache p
  /\ lastUrl p' = lastUrl p
  /\ timers p' = timers p
  /\ awaiting p' = awaiting p
  /\ extractions p' = extractions p.
Proof.
  simpl. unfold extractions, extractionsOf.
  destruct (transcriptCache p) as [cached |] eqn:Hcache;
    rewrite since_emit; simpl; rewrite ?Hcache, omap_app; simpl;
    rewrite app_nil_r; repeat split; reflexivity.
Qed.

(** C10.  A settled extraction is cached whether it succeeded or failed;
    so after a failed one, which is reported as [transcriptError], a
    [getTranscript] request is answered with [{success: true, data}] whose
    [data] is the failure. *)
Theorem failed_extraction_cached_and_served (p : Page) (i : nat)
    (videoId : option string) (result : TranscriptResult) :
  awaiting p !! i = Some videoId ->
  let p1 := step p (Settle i (Fulfilled result)) in
  transcriptCache p1 = Some result
  /\ currentVideoId p1 = videoId
  /\ since p1 (step p1 (OnMessage GetTranscript)) = [Responded (ResponseData result)]
  /\ (success result = false ->
      since p p1 = [Sent (TranscriptError (error result))]).
Proof.
  intros Hcall. simpl. rewrite Hcall.
  unfold extractAndSendTranscript_resume.
  destruct (success result) eqn:Hsuccess; simpl.
  - repeat split; try reflexivity.
    + apply since_emit.
    + discriminate.
  - repeat split; try reflexivity.
    + apply since_emit.
    + intros _. unfold since; simpl. by rewrite drop_app_length.
Qed.

Lemma failed_extraction_cached_and_served_witness :
  let p := run (load false (watch "?v=XYZ") 0)
             [Advance 100; Timeout 0; Advance 1500; Timeout 0] in
  let result := failed "No captions available" in
  let p1 := step p (Settle 0 (Fulfilled result)) in
  transcriptCache p1 = Some result
  /\ currentVideoId p1 = Some "XYZ"
  /\ since p1 (step p1 (OnMessage GetTranscript)) = [Responded (ResponseData result)]
  /\ (success result = false ->
      since p p1 = [Sent (TranscriptError (error result))]).
Proof.
  apply (failed_extraction_cached_and_served
           (run (load false (watch "?v=XYZ") 0)
                [Advance 100; Timeout 0; Advance 1500; Timeout 0])
           0 (Some "XYZ") (failed "No captions available")).
  reflexivity.
Defined.

(** *** Leaving the video page *)

(** C4, as stated, fails: a page that has its transcript cached is
    navigated to the home page; the observer's turn clears the cache but
    sends nothing, so no [noVideoPage] message is among its effects. *)
Lemma leaving_video_page_sends_no_noVideoPage :
  let p := run (load false (watch "?v=XYZ") 0)
             [Advance 100; Timeout 0; Advance 1500; Timeout 0;
              Settle 0 (Fulfilled (loaded "XYZ")); Navigate home] in
  href (location p) <> lastUrl p
  /\ isYouTubeVideoPage (location p) = false
  /\ since p (step p Mutation) = []
  /\ ~ In (Sent NoVideoPage) (since p (step p Mutation)).
Proof.
  vm_compute. repeat split; try discriminate. intros [].
Qed.

(** C4, amended.  When the observer sees a new URL that is not a video
    page, it records the URL, clears [currentVideoId] and
    [transcriptCache], sends no message and sets no timer: the turn has no
    effect outside the three variables. *)
Theorem leaving_video_page_clears_silently (p : Page) :
  href (location p) <> lastUrl p ->
  isYouTubeVideoPage (location p) = false ->
  let p' := step p Mutation in
  currentVideoId p' = None
  /\ transcriptCache p' = None
  /\ lastUrl p' = href (location p)
  /\ since p p' = []
  /\ timers p' = timers p
  /\ awaiting p' = awaiting p.
Proof.
  intros Hurl Hpage. simpl.
  rewrite (mutationObserver_new_url p Hurl). simpl. rewrite Hpage.
  repeat split; try reflexivity.
  unfold since; simpl. by rewrite drop_all.
Qed.

Lemma leaving_video_page_clears_silently_witness :
  let p := run (load false (watch "?v=XYZ") 0)
             [Advance 100; Timeout 0; Advance 1500; Timeout 0;
              Settle 0 (Fulfilled (loaded "XYZ")); Navigate home] in
  let p' := step p Mutation in
  currentVideoId p' = None
  /\ transcriptCache p' = None
  /\ lastUrl p' = href (location p)
  /\ since p p' = []
  /\ timers p' = timers p
  /\ awaiting p' = awaiting p.
Proof.
  apply leaving_video_page_clears_silently.
  - vm_compute. discriminate.
  - reflexivity.
Defined.

(** *** Runs, logs and the budget of extractions *)

Lemma extractionsOf_app (k1 k2 : list Effect) :
  extractionsOf (k1 ++ k2) = extractionsOf k1 ++ extractionsOf k2.
Proof. apply omap_app. Qed.

Lemma run_app (p : Page) (evs1 evs2 : list Event) :
  run p (evs1 ++ evs2) = run (run p evs1) evs2.
Proof. apply fold_left_app. Qed.

Lemma since_app (p p' : Page) (k : list Effect) :
  log p' = log p ++ k -> since p p' = k.
Proof. intros Hk. unfold since. by rewrite Hk, drop_app_length. Qed.

Lemma step_budget (p : Page) (e : Event) :
  (e = Mutation -> href (location p) = lastUrl p) ->
  (budget (step p e) <= budget p)%nat /\ lastUrl (step p e) = lastUrl p.
Proof.
  intros Htick. destruct e as [l | dt | | | i | i s | m]; simpl.
  - split; reflexivity.
  - split; reflexivity.
  - destruct (listening p) eqn:Hl; [| split; reflexivity].
    unfold budget, initializeContentScript, extractions, extractionsOf.
    rewrite Hl.
    destruct (isYouTubeVideoPage _); simpl;
      rewrite ?omap_app, ?length_app; simpl; split; (lia || reflexivity).
  - rewrite mutationObserver_same_url by auto. split; reflexivity.
  - destruct (timers p !! i) as [t |] eqn:Hi; [| split; reflexivity].
    destruct (deadline t <=? clock p); [| split; reflexivity].
    assert (Hlen : (length (delete i (timers p)) = length (timers p) - 1
                    /\ 0 < length (timers p))%nat).
    { pose proof (lookup_lt_Some _ _ _ Hi). rewrite length_delete by eauto. lia. }
    destruct Hlen as [Hlen Hpos].
    destruct (callback t); simpl;
      unfold budget, initializeContentScript, extractAndSendTranscript,
        extractions, extractionsOf; simpl.
    + destruct (isYouTubeVideoPage (location p)); simpl;
        rewrite ?omap_app, ?length_app; simpl; rewrite ?Hlen; split; (lia || reflexivity).
    + destruct (bool_decide _ && bool_decide _); simpl;
        rewrite ?omap_app, ?length_app; simpl; rewrite ?Hlen; split; (lia || reflexivity).
  - destruct (awaiting p !! i) as [v |]; [| split; reflexivity].
    unfold budget, extractions, extractionsOf.
    destruct s as [result | message |]; simpl; [destruct (success result) |..]; simpl;
      rewrite ?omap_app, ?length_app; simpl; split; (lia || reflexivity).
  - unfold budget, extractions, extractionsOf.
    destruct m; simpl; try (split; reflexivity).
    + destruct (transcriptCache p); simpl;
        rewrite ?omap_app, ?length_app; simpl; split; (lia || reflexivity).
    + destruct seconds; simpl;
        rewrite ?omap_app, ?length_app; simpl; split; (lia || reflexivity).
Qed.

Lemma run_budget (evs : list Event) : forall p : Page,
  sameUrlAtEveryTick p evs ->
  (budget (run p evs) <= budget p)%nat /\ lastUrl (run p evs) = lastUrl p.
Proof.
  unfold sameUrlAtEveryTick.
  induction evs as [| e evs IH]; intros p Hticks; [split; reflexivity |].
  change (run p (e :: evs)) with (run (step p e) evs).
  assert (Hnow : e = Mutation -> href (location p) = lastUrl p).
  { intros ->. simpl in Hticks. by inversion Hticks. }
  destruct (step_budget p e Hnow) as [Hb Hu].
  assert (Hrest : Forall (fun l => href l = lastUrl (step p e)) (observed (step p e) evs)).
  { rewrite Hu. destruct e; simpl in Hticks; try exact Hticks.
    by inversion Hticks. }
  destruct (IH _ Hrest) as [Hb' Hu'].
  split; [lia | congruence].
Qed.

Lemma budget_load (loading : bool) (l : Location) (t : Z) :
  budget (load loading l t) = 1%nat.
Proof. destruct loading; reflexivity. Qed.

(** *** Ticks that see no new URL *)

(** C1, as stated, fails: the URL changes from [?v=XYZ] to [?v=XYZ&t=30s];
    every tick reads the same video identifier, yet the observer clears
    the cache and the transcript of XYZ is fetched a second time. *)
Lemma same_video_new_url_fetches_twice :
  let p := load false (watch "?v=XYZ") 0 in
  let evs := [Advance 100; Timeout 0; Mutation; Advance 1500; Timeout 0;
              Settle 0 (Fulfilled (loaded "XYZ")); Mutation;
              Navigate (watch "?v=XYZ&t=30s"); Mutation;
              Advance 2500; Mutation; Timeout 0] in
  sameVideoAtEveryTick p evs
  /\ extractions (run p evs) = [Some "XYZ"; Some "XYZ"]
  /\ ~ fetchedOncePerVideo (run p evs).
Proof.
  split; [| split].
  - unfold sameVideoAtEveryTick. vm_compute. repeat constructor.
  - reflexivity.
  - unfold fetchedOncePerVideo.
    change (extractions _) with [Some "XYZ"; Some "XYZ"].
    intros Hnodup. apply NoDup_cons in Hnodup as [Hfresh _].
    apply Hfresh. constructor.
Qed.

Lemma onceOnly_load (loading : bool) (l : Location) (t : Z) :
  onceOnly l (load loading l t).
Proof. destruct loading; repeat split; left; repeat split. Qed.

Lemma onceOnly_step (l : Location) (p : Page) (e : Event) :
  isYouTubeVideoPage l = true ->
  onceOnly l p -> isNavigate e = false -> onceOnly l (step p e).
Proof.
  intros Hpage Hp Hnav.
  pose proof Hp as (Hloc & Hurl & Hcases).
  assert (Hemit : forall eff, extractionsOf [eff] = [] -> onceOnly l (emit eff p)).
  { intros eff Heff. split; [exact Hloc | split; [exact Hurl |]].
    unfold extractions in *. simpl. rewrite extractionsOf_app, Heff, app_nil_r.
    exact Hcases. }
  destruct e as [l' | dt | | | i | i s | m]; simpl; try discriminate.
  - exact Hp.
  - destruct (listening p) eqn:Hl; [| exact Hp].
    destruct Hcases as [(Hex & Hc & Ha & Hn) | (_ & Hl' & _)]; [| congruence].
    destruct (timers p) as [| t0 ts] eqn:Ht; [| simpl in Hn; lia].
    unfold initializeContentScript. simpl. rewrite Hloc, Hpage.
    split; [exact Hloc | split; [exact Hurl | left]].
    unfold extractions in *. simpl.
    rewrite extractionsOf_app, Hex, ?Ht, ?Hl. repeat split; (assumption || reflexivity).
  - by rewrite mutationObserver_same_url by congruence.
  - destruct (timers p !! i) as [t0 |] eqn:Hi; [| exact Hp].
    destruct (deadline t0 <=? clock p); [| exact Hp].
    destruct Hcases as [(Hex & Hc & Ha & Hn) | (_ & _ & Ht)];
      [| rewrite Ht in Hi; discriminate].
    destruct (listening p) eqn:Hl.
    { destruct (timers p); [discriminate | simpl in Hn; lia]. }
    destruct (timers p) as [| t1 [| t2 ts]] eqn:Ht; simpl in Hn; try lia.
    destruct i as [| i]; [| discriminate]. injection Hi as ->.
    simpl. destruct (callback t0); simpl.
    + unfold initializeContentScript. simpl. rewrite Hloc, Hpage.
      split; [exact Hloc | split; [exact Hurl | left]].
      unfold extractions in *. simpl.
      rewrite extractionsOf_app, Hex, ?Hl. repeat split; (assumption || reflexivity).
    + unfold extractAndSendTranscript. simpl. rewrite Hc.
      rewrite (bool_decide_eq_false_2 (is_Some None)) by (by intros [? ?]).
      rewrite andb_false_r.
      split; [exact Hloc | split; [exact Hurl | right]].
      unfold extractions in *. simpl.
      rewrite extractionsOf_app, Hex, Hloc. repeat split; (assumption || reflexivity).
  - destruct (awaiting p !! i) as [v |] eqn:Hi; [| exact Hp].
    destruct Hcases as [(_ & _ & Ha & _) | (Hex & Hl & Ht)];
      [rewrite Ha in Hi; discriminate |].
    assert (Hdone : forall q, location q = location p -> lastUrl q = lastUrl p ->
              listening q = listening p -> timers q = timers p ->
              extractions q = extractions p -> onceOnly l q).
    { intros q E1 E2 E3 E4 E5. split; [congruence | split; [congruence | right]].
      rewrite E5, E3, E4. repeat split; assumption. }
    destruct s as [result | message |]; simpl; [destruct (success result) |..];
      apply Hdone; try reflexivity;
      unfold extractions; simpl; by rewrite extractionsOf_app, app_nil_r.
  - destruct m; simpl; try exact Hp.
    + destruct (transcriptCache p); by apply Hemit.
    + destruct seconds; [by apply Hemit | exact Hp].
Qed.

Lemma onceOnly_run (l : Location) (evs : list Event) : forall p : Page,
  isYouTubeVideoPage l = true ->
  onceOnly l p ->
  Forall (fun e => isNavigate e = false) evs ->
  onceOnly l (run p evs).
Proof.
  induction evs as [| e evs IH]; intros p Hpage Hp Hnav; [exact Hp |].
  inversion Hnav as [| ? ? He Hnav']; subst.
  change (run p (e :: evs)) with (run (step p e) evs).
  apply IH; [exact Hpage | by apply onceOnly_step | exact Hnav'].
Qed.

(** C1, amended.  From the script's load on, as long as every tick of the
    observer reads the URL it saw last, the transcript fetch is invoked at
    most once (so never twice for one video identifier) and a tick changes
    nothing; on a video page that is not navigated, once the listener and
    the timers have run, it was invoked exactly once, for the URL's video
    identifier. *)
Theorem same_url_fetches_at_most_once (loading : bool) (l : Location) (t : Z)
    (evs : list Event) :
  sameUrlAtEveryTick (load loading l t) evs ->
  let p' := run (load loading l t) evs in
  (length (extractions p') <= 1)%nat
  /\ fetchedOncePerVideo p'
  /\ (forall p : Page, href (location p) = lastUrl p -> step p Mutation = p)
  /\ (isYouTubeVideoPage l = true ->
      Forall (fun e => isNavigate e = false) evs ->
      listening p' = false -> timers p' = [] ->
      extractions p' = [getVideoId l]).
Proof.
  intros Hticks p'.
  assert (Hone : (length (extractions p') <= 1)%nat).
  { destruct (run_budget evs _ Hticks) as [Hb _].
    rewrite budget_load in Hb. unfold budget in Hb. subst p'. lia. }
  split; [exact Hone | split; [| split]].
  - unfold fetchedOncePerVideo.
    destruct (extractions p') as [| v [| w vs]]; simpl in Hone.
    + constructor.
    + constructor; [apply not_elem_of_nil | constructor].
    + lia.
  - intros p Hp. simpl. by apply mutationObserver_same_url.
  - intros Hpage Hnav Hl Ht.
    destruct (onceOnly_run l evs _ Hpage (onceOnly_load loading l t) Hnav)
      as (_ & _ & [(_ & _ & _ & Hn) | (Hex & _ & _)]); [| exact Hex].
    fold p' in Hn. rewrite Hl, Ht in Hn. discriminate Hn.
Qed.

Lemma same_url_fetches_at_most_once_witness :
  let l := watch "?v=XYZ" in
  let evs := [Advance 100; Timeout 0; Mutation; Advance 1500; Timeout 0;
              Mutation; Settle 0 (Fulfilled (loaded "XYZ")); Mutation;
              OnMessage GetTranscript; Mutation] in
  let p' := run (load false l 0) evs in
  (length (extractions p') <= 1)%nat
  /\ fetchedOncePerVideo p'
  /\ (forall p : Page, href (location p) = lastUrl p -> step p Mutation = p)
  /\ (isYouTubeVideoPage l = true ->
      Forall (fun e => isNavigate e = false) evs ->
      listening p' = false -> timers p' = [] ->
      extractions p' = [getVideoId l]).
Proof.
  apply (same_url_fetches_at_most_once false (watch "?v=XYZ") 0).
  unfold sameUrlAtEveryTick. vm_compute. repeat constructor.
Defined.

(** *** Rapid navigation A, B, A *)

Lemma waiting_step (base : list Effect) (l : Location) (ts : list Timer)
    (p : Page) (e : Event) :
  waiting base l ts p ->
  isNavigate e = false ->
  Forall (fun t => clock p < deadline t) ts ->
  waiting base l ts (step p e)
  /\ clock (step p e) = clock p + match e with Advance dt => Z.max 0 dt | _ => 0 end.
Proof.
  intros Hp Hnav Hdue.
  pose proof Hp as (Hloc & Hurl & Hl & Ha & Ht & k & Hk & Hnone).
  assert (Hemit : forall eff, extractionsOf [eff] = [] ->
            waiting base l ts (emit eff p)).
  { intros eff Heff. repeat (split; [assumption |]).
    exists (k ++ [eff]). simpl.
    by rewrite Hk, <- app_assoc, extractionsOf_app, Hnone, Heff. }
  destruct e as [l' | dt | | | i | i s | m]; simpl; try discriminate.
  - split; [exact Hp | reflexivity].
  - rewrite Hl. split; [exact Hp | lia].
  - rewrite mutationObserver_same_url by congruence. split; [exact Hp | lia].
  - destruct (timers p !! i) as [t |] eqn:Hi; [| split; [exact Hp | lia]].
    assert (Hlate : clock p < deadline t).
    { rewrite Ht in Hi. exact (Forall_lookup_1 _ _ _ _ Hdue Hi). }
    replace (deadline t <=? clock p) with false by (symmetry; apply Z.leb_gt; lia).
    split; [exact Hp | lia].
  - rewrite Ha. simpl. split; [exact Hp | lia].
  - destruct m; simpl; try (split; [exact Hp | lia]).
    + destruct (transcriptCache p); (split; [by apply Hemit | simpl; lia]).
    + destruct seconds; (split; [first [by apply Hemit | exact Hp] | simpl; lia]).
Qed.

Lemma waiting_run (base : list Effect) (l : Location) (ts : list Timer)
    (evs : list Event) : forall p : Page,
  waiting base l ts p ->
  Forall (fun e => isNavigate e = false) evs ->
  Forall (fun t => clock p + elapsed evs < deadline t) ts ->
  waiting base l ts (run p evs).
Proof.
  induction evs as [| e evs IH]; intros p Hp Hnav Hdue; [exact Hp |].
  inversion Hnav as [| ? ? He Hnav']; subst.
  change (run p (e :: evs)) with (run (step p e) evs).
  assert (Hpos : 0 <= elapsed evs).
  { clear. induction evs as [| [] evs IH]; simpl; lia. }
  assert (Hnow : Forall (fun t => clock p < deadline t) ts).
  { eapply Forall_impl; [exact Hdue |]. intros t Ht. simpl in Ht.
    destruct e; simpl in Ht; lia. }
  destruct (waiting_step base l ts p e Hp He Hnow) as [Hq Hclock].
  apply IH; [exact Hq | exact Hnav' |].
  eapply Forall_impl; [exact Hdue |]. intros t Ht. simpl in Ht. rewrite Hclock.
  destruct e; simpl in Ht |- *; lia.
Qed.

Lemma settling_step (base : list Effect) (l : Location) (p : Page) (e : Event) :
  settling base l p -> isNavigate e = false -> settling base l (step p e).
Proof.
  intros Hp Hnav.
  pose proof Hp as [Hloc Hurl Hl Hts Haw Hc (k & Hk & Hvs & Hlen)].
  assert (Hemit : forall eff, extractionsOf [eff] = [] ->
            settling base l (emit eff p)).
  { intros eff Heff. constructor; simpl; try assumption.
    exists (k ++ [eff]).
    rewrite Hk, <- app_assoc, extractionsOf_app, Heff, app_nil_r. auto. }
  assert (Hframe : forall q, location q = location p -> lastUrl q = lastUrl p ->
            listening q = listening p -> timers q = timers p ->
            awaiting q = awaiting p -> currentVideoId q = currentVideoId p ->
            transcriptCache q = transcriptCache p -> log q = log p ->
            settling base l q).
  { intros q E1 E2 E3 E4 E5 E6 E7 E8.
    constructor; rewrite ?E1, ?E2, ?E3, ?E4, ?E5, ?E6, ?E7, ?E8; try assumption.
    exists k. auto. }
  destruct e as [l' | dt | | | i | i s | m]; simpl; try discriminate.
  - by apply Hframe.
  - by rewrite Hl.
  - by rewrite mutationObserver_same_url by congruence.
  - destruct (timers p !! i) as [t |] eqn:Hi; [| exact Hp].
    destruct (deadline t <=? clock p); [| exact Hp].
    rewrite (Forall_lookup_1 _ _ _ _ Hts Hi). simpl.
    assert (Hdel : (length (delete i (timers p)) = length (timers p) - 1
                    /\ 0 < length (timers p))%nat).
    { pose proof (lookup_lt_Some _ _ _ Hi). rewrite length_delete by eauto. lia. }
    destruct Hdel as [Hdel Hpos].
    unfold extractAndSendTranscript. simpl.
    destruct (bool_decide _ && bool_decide _);
      constructor; simpl; try assumption; try (by apply Forall_delete).
    + exists k. repeat split; [assumption | assumption | lia].
    + rewrite Hloc. apply Forall_app. split; [assumption | by repeat constructor].
    + exists (k ++ [Extraction (getVideoId (location p))]).
      rewrite Hk, <- app_assoc, extractionsOf_app, length_app, Hloc. simpl.
      repeat split; [| lia].
      apply Forall_app. split; [assumption | by repeat constructor].
  - destruct (awaiting p !! i) as [v |] eqn:Hi; [| exact Hp].
    assert (Hv : v = getVideoId l) by exact (Forall_lookup_1 _ _ _ _ Haw Hi).
    subst v.
    assert (Hlog : forall m, exists k', log p ++ [Sent m] = base ++ k'
              /\ Forall (fun v => v = getVideoId l) (extractionsOf k')
              /\ (length (timers p) + length (extractionsOf k') <= 2)%nat).
    { intros m. exists (k ++ [Sent m]).
      rewrite Hk, <- app_assoc, extractionsOf_app. simpl. rewrite app_nil_r. auto. }
    destruct s as [result | message |]; simpl; [destruct (success result) |..];
      constructor; simpl; try assumption; try (by apply Forall_delete);
      try (intros _; reflexivity); apply Hlog.
  - destruct m; simpl; try exact Hp.
    + destruct (transcriptCache p); by apply Hemit.
    + destruct seconds; [by apply Hemit | exact Hp].
Qed.

Lemma settling_run (base : list Effect) (l : Location) (evs : list Event) :
  forall p : Page,
  settling base l p ->
  Forall (fun e => isNavigate e = false) evs ->
  settling base l (run p evs).
Proof.
  induction evs as [| e evs IH]; intros p Hp Hnav; [exact Hp |].
  inversion Hnav as [| ? ? He Hnav']; subst.
  change (run p (e :: evs)) with (run (step p e) evs).
  apply IH; [by apply settling_step | exact Hnav'].
Qed.

Lemma reported_step (p : Page) (e : Event) :
  exists d, log (step p e) = log p ++ d
    /\ (length (extractionsOf d) + length (awaiting p)
        = length (awaiting (step p e))
          + length (List.filter ContentScriptMeasures.isReport d))%nat.
Proof.
  assert (Hnone : forall q, log q = log p -> awaiting q = awaiting p ->
            exists d, log q = log p ++ d
              /\ (length (extractionsOf d) + length (awaiting p)
                  = length (awaiting q)
                    + length (List.filter ContentScriptMeasures.isReport d))%nat).
  { intros q E1 E2. exists []. rewrite app_nil_r, E2. auto. }
  assert (Hinit : forall q, log q = log p -> awaiting q = awaiting p ->
            exists d, log (initializeContentScript q) = log p ++ d
              /\ (length (extractionsOf d) + length (awaiting p)
                  = length (awaiting (initializeContentScript q))
                    + length (List.filter ContentScriptMeasures.isReport d))%nat).
  { intros q E1 E2. exists [Sent (SidebarLoaded true)].
    unfold initializeContentScript. simpl.
    destruct (isYouTubeVideoPage (location q)); simpl; rewrite E1, E2; auto. }
  destruct e as [l | dt | | | i | i s | m]; simpl.
  - by apply Hnone.
  - by apply Hnone.
  - destruct (listening p); [by apply Hinit | by apply Hnone].
  - unfold mutationObserver.
    destruct (negb _); [| by apply Hnone].
    simpl. destruct (isYouTubeVideoPage _); by apply Hnone.
  - destruct (timers p !! i) as [t |]; [| by apply Hnone].
    destruct (deadline t <=? clock p); [| by apply Hnone].
    destruct (callback t); simpl; [by apply Hinit |].
    unfold extractAndSendTranscript. simpl.
    destruct (bool_decide _ && bool_decide _); [by apply Hnone |].
    exists [Extraction (getVideoId (location p))]. simpl.
    rewrite length_app. simpl. split; [reflexivity | lia].
  - destruct (awaiting p !! i) as [v |] eqn:Hi; [| by apply Hnone].
    pose proof (lookup_lt_Some _ _ _ Hi) as Hlt.
    assert (Hdel : (length (delete i (awaiting p)) = length (awaiting p) - 1)%nat).
    { rewrite length_delete by eauto. lia. }
    destruct s as [result | message |]; simpl; [destruct (success result) |..];
      eexists [_]; simpl; (split; [reflexivity | rewrite Hdel; simpl; lia]).
  - destruct m; simpl; try (by apply Hnone).
    + destruct (transcriptCache p); eexists [_]; simpl; (split; [reflexivity | simpl; lia]).
    + destruct seconds; [| by apply Hnone].
      eexists [_]; simpl; (split; [reflexivity | simpl; lia]).
Qed.

Lemma reported_run (evs : list Event) : forall p : Page,
  exists d, log (run p evs) = log p ++ d
    /\ (length (extractionsOf d) + length (awaiting p)
        = length (awaiting (run p evs))
          + length (List.filter ContentScriptMeasures.isReport d))%nat.
Proof.
  induction evs as [| e evs IH]; intros p.
  - exists []. rewrite app_nil_r. auto.
  - change (run p (e :: evs)) with (run (step p e) evs).
    destruct (reported_step p e) as (d1 & Hd1 & Hn1).
    destruct (IH (step p e)) as (d2 & Hd2 & Hn2).
    exists (d1 ++ d2).
    rewrite Hd2, Hd1, <- app_assoc, extractionsOf_app, List.filter_app, !length_app.
    split; [reflexivity | lia].
Qed.

Lemma pendingOrStarted_step (base : list Effect) (l : Location) (p : Page)
    (e : Event) :
  settling base l p -> isNavigate e = false ->
  ContentScriptMeasures.pendingOrStarted base p ->
  ContentScriptMeasures.pendingOrStarted base (step p e).
Proof.
  intros [Hloc Hurl Hl Hts Haw Hc (k & Hk & _)] Hnav Hp.
  specialize (Hp k Hk).
  assert (Hkeep : forall q, log q = log p -> timers q = timers p ->
            transcriptCache q = transcriptCache p -> awaiting q = awaiting p ->
            ContentScriptMeasures.pendingOrStarted base q).
  { intros q E1 E2 E3 E4 k' Hk'. rewrite E1, Hk in Hk'.
    apply app_inv_head in Hk'. subst k'. by rewrite E2, E3, E4. }
  assert (Hgrow : forall q d, log q = log p ++ d ->
            (1 <= length (extractionsOf k) + length (extractionsOf d))%nat ->
            ContentScriptMeasures.pendingOrStarted base q).
  { intros q d E1 Hone k' Hk'. rewrite E1, Hk, <- app_assoc in Hk'.
    apply app_inv_head in Hk'. subst k'. left.
    by rewrite extractionsOf_app, length_app. }
  assert (Hemit : forall eff, ContentScriptMeasures.pendingOrStarted base (emit eff p)).
  { intros eff k' Hk'. simpl in Hk'. rewrite Hk, <- app_assoc in Hk'.
    apply app_inv_head in Hk'. subst k'.
    rewrite extractionsOf_app, length_app.
    destruct Hp as [Hone | Hpending]; [left; lia | by right]. }
  destruct e as [l' | dt | | | i | i s | m]; simpl; try discriminate.
  - by apply Hkeep.
  - rewrite Hl. by apply Hkeep.
  - rewrite mutationObserver_same_url by congruence. by apply Hkeep.
  - destruct (timers p !! i) as [t |] eqn:Hi; [| by apply Hkeep].
    destruct (deadline t <=? clock p); [| by apply Hkeep].
    rewrite (Forall_lookup_1 _ _ _ _ Hts Hi). simpl.
    unfold extractAndSendTranscript. simpl.
    destruct (bool_decide (is_Some (transcriptCache p))) eqn:Hcached.
    + apply bool_decide_eq_true in Hcached.
      destruct Hp as [Hone | (_ & Hnone & _)].
      * destruct (bool_decide _ && true).
        -- apply (Hgrow _ []); [simpl; by rewrite app_nil_r | simpl; lia].
        -- apply (Hgrow _ [Extraction (getVideoId (location p))]);
             [reflexivity | simpl; lia].
      * rewrite Hnone in Hcached. by destruct Hcached.
    + rewrite andb_false_r.
      apply (Hgrow _ [Extraction (getVideoId (location p))]);
        [reflexivity | simpl; lia].
  - destruct (awaiting p !! i) as [v |] eqn:Hi; [| by apply Hkeep].
    destruct Hp as [Hone | (_ & _ & Hnone)];
      [| rewrite Hnone in Hi; discriminate].
    destruct s as [result | message |]; simpl; [destruct (success result) |..];
      eapply (Hgrow _ [_]); try reflexivity; simpl; lia.
  - destruct m; simpl; try (by apply Hkeep).
    + destruct (transcriptCache p); apply Hemit.
    + destruct seconds; [apply Hemit | by apply Hkeep].
Qed.

Lemma loadedIsCached_step (base : list Effect) (l : Location) (p : Page)
    (e : Event) :
  settling base l p -> isNavigate e = false ->
  ContentScriptMeasures.loadedIsCached base p ->
  ContentScriptMeasures.loadedIsCached base (step p e).
Proof.
  intros [Hloc Hurl Hl Hts Haw Hc (k & Hk & _)] Hnav Hp.
  assert (Hgrow : forall q eff, log q = log p ++ [eff] ->
            transcriptCache q = transcriptCache p ->
            (forall r, eff <> Sent (TranscriptLoaded r)) ->
            ContentScriptMeasures.loadedIsCached base q).
  { intros q eff E1 E2 Hother k' r Hk' Hin.
    rewrite E1, Hk, <- app_assoc in Hk'. apply app_inv_head in Hk'. subst k'.
    rewrite E2. apply in_app_or in Hin as [Hin | [Heq | []]].
    - exact (Hp k r Hk Hin).
    - by destruct (Hother r). }
  assert (Hkeep : forall q, log q = log p ->
            transcriptCache q = transcriptCache p ->
            ContentScriptMeasures.loadedIsCached base q).
  { intros q E1 E2 k' r Hk' Hin. rewrite E1 in Hk'. rewrite E2. eauto. }
  assert (Hset : forall q result, transcriptCache q = Some result ->
            ContentScriptMeasures.loadedIsCached base q).
  { intros q result E k' r _ _. rewrite E. eauto. }
  destruct e as [l' | dt | | | i | i s | m]; simpl; try discriminate.
  - by apply Hkeep.
  - rewrite Hl. by apply Hkeep.
  - rewrite mutationObserver_same_url by congruence. by apply Hkeep.
  - destruct (timers p !! i) as [t |] eqn:Hi; [| by apply Hkeep].
    destruct (deadline t <=? clock p); [| by apply Hkeep].
    rewrite (Forall_lookup_1 _ _ _ _ Hts Hi). simpl.
    unfold extractAndSendTranscript. simpl.
    destruct (bool_decide _ && bool_decide _); [by apply Hkeep |].
    by eapply Hgrow.
  - destruct (awaiting p !! i) as [v |] eqn:Hi; [| by apply Hkeep].
    destruct s as [result | message |]; simpl; [destruct (success result) |..];
      first [by eapply Hset | by eapply Hgrow].
  - destruct m; simpl; try (by apply Hkeep).
    + destruct (transcriptCache p) eqn:Hcache; by eapply Hgrow.
    + destruct seconds; [by eapply Hgrow | by apply Hkeep].
Qed.

Lemma progress_run (base : list Effect) (l : Location) (evs : list Event) :
  forall p : Page,
  settling base l p ->
  Forall (fun e => isNavigate e = false) evs ->
  (ContentScriptMeasures.pendingOrStarted base p ->
   ContentScriptMeasures.pendingOrStarted base (run p evs))
  /\ (ContentScriptMeasures.loadedIsCached base p ->
      ContentScriptMeasures.loadedIsCached base (run p evs)).
Proof.
  induction evs as [| e evs IH]; intros p Hs Hnav; [by split |].
  inversion Hnav as [| ? ? He Hnav']; subst.
  change (run p (e :: evs)) with (run (step p e) evs).
  destruct (IH (step p e) (settling_step _ _ _ _ Hs He) Hnav') as [IH1 IH2].
  split; intros Hp.
  - apply IH1. by eapply pendingOrStarted_step.
  - apply IH2. by eapply loadedIsCached_step.
Qed.

(** C2, amended.  A page with nothing pending is navigated from A to B
    and, less than 2500 ms later, back to A.  Whatever happens next without
    a further navigation: every extraction started since is keyed by A's
    video identifier, so none is ever started for B; there are at most two
    of them, and at least one once the timers have run, if A is a video
    page; each is still suspended or was answered by exactly one report;
    every call still suspended is keyed by A; a cached result is filed
    under A's identifier; and once [transcriptLoaded] was sent, a result is
    cached under A's identifier. *)
Theorem rapid_navigation_settles_on_final (p : Page) (A B : Location)
    (mid rest : list Event) :
  quiescent p ->
  location p = A ->
  lastUrl p = href A ->
  href B <> href A ->
  Forall (fun e => isNavigate e = false) mid ->
  elapsed mid < 2500 ->
  Forall (fun e => isNavigate e = false) rest ->
  let p' := run p ([Navigate B; Mutation] ++ mid ++ [Navigate A; Mutation] ++ rest) in
  let started := extractionsOf (since p p') in
  location p' = A
  /\ Forall (fun v => v = getVideoId A) started
  /\ (length started <= 2)%nat
  /\ (isYouTubeVideoPage A = true -> timers p' = [] -> (1 <= length started)%nat)
  /\ (length started
      = length (awaiting p')
        + length (List.filter ContentScriptMeasures.isReport (since p p')))%nat
  /\ Forall (fun v => v = getVideoId A) (awaiting p')
  /\ (is_Some (transcriptCache p') -> currentVideoId p' = getVideoId A)
  /\ (forall r, In (Sent (TranscriptLoaded r)) (since p p') ->
        is_Some (transcriptCache p') /\ currentVideoId p' = getVideoId A).
Proof.
  intros (Hl & Ht & Ha) Hloc Hurl Hne Hmid Hfast Hrest p' started.
  subst p' started.
  pose proof (reported_run
                ([Navigate B; Mutation] ++ mid ++ [Navigate A; Mutation] ++ rest) p)
    as (d & Hd & Hn).
  pose proof (reported_run ([Navigate B; Mutation] ++ mid) p) as (d2 & Hd2 & Hn2).
  rewrite run_app, run_app, run_app in Hd, Hn.
  rewrite run_app in Hd2, Hn2.
  rewrite run_app, run_app, run_app.
  set (p1 := run p [Navigate B; Mutation]) in *.
  set (ts1 := timers p1).
  (* the first navigation *)
  assert (H1 : waiting (log p) B ts1 p1
               /\ Forall (fun t => clock p1 + elapsed mid < deadline t) ts1
               /\ Forall (fun t => callback t = CbExtractAndSendTranscript) ts1
               /\ (length ts1 <= 1)%nat).
  { subst ts1 p1. simpl.
    rewrite mutationObserver_new_url by (simpl; congruence).
    unfold waiting, setTimeout, setTimers, setCache, setLastUrl, setLocation.
    simpl. destruct (isYouTubeVideoPage B); simpl; rewrite ?Ht; simpl.
    - repeat split; try assumption; try reflexivity.
      + exists []. by rewrite app_nil_r.
      + repeat constructor. simpl. lia.
      + repeat constructor.
    - repeat split; try assumption; try reflexivity; try constructor.
      + exists []. by rewrite app_nil_r.
      + lia. }
  destruct H1 as (Hw1 & Hdue & Hcb & Hlen1).
  (* waiting at B *)
  pose proof (waiting_run _ _ _ mid p1 Hw1 Hmid Hdue) as Hw2.
  set (p2 := run p1 mid) in *.
  destruct Hw2 as (Hloc2 & Hurl2 & Hl2 & Ha2 & Ht2 & k & Hk & Hnone).
  (* nothing was reported on the way *)
  assert (Hquiet : forall r, ~ In (Sent (TranscriptLoaded r)) k).
  { rewrite Hk in Hd2. apply app_inv_head in Hd2. subst d2.
    rewrite Hnone, Ha, Ha2 in Hn2. simpl in Hn2.
    intros r Hin.
    assert (Hin' : In (Sent (TranscriptLoaded r))
                      (List.filter ContentScriptMeasures.isReport k))
      by (apply List.filter_In; by split).
    destruct (List.filter _ k); [destruct Hin' | discriminate Hn2]. }
  (* the navigation back *)
  assert (H3 : settling (log p) A (run p2 [Navigate A; Mutation])).
  { simpl. rewrite mutationObserver_new_url by (simpl; congruence).
    unfold setTimeout, setTimers, setCache, setLastUrl, setLocation. simpl.
    destruct (isYouTubeVideoPage A); constructor; simpl;
      rewrite ?Ht2, ?Ha2; try reflexivity; try assumption; try constructor.
    - apply Forall_app. split; [assumption | by repeat constructor].
    - by intros [? ?].
    - exists k. rewrite Hnone, length_app. simpl. repeat split; [assumption | constructor | lia].
    - by intros [? ?].
    - exists k. rewrite Hnone. simpl. repeat split; [assumption | constructor | lia]. }
  assert (Hback : log (run p2 [Navigate A; Mutation]) = log p2
                  /\ transcriptCache (run p2 [Navigate A; Mutation]) = None
                  /\ awaiting (run p2 [Navigate A; Mutation]) = []
                  /\ (isYouTubeVideoPage A = true ->
                      timers (run p2 [Navigate A; Mutation]) <> [])).
  { simpl. rewrite mutationObserver_new_url by (simpl; congruence).
    unfold setTimeout, setTimers, setCache, setLastUrl, setLocation. simpl.
    destruct (isYouTubeVideoPage A); simpl; repeat split; try assumption.
    - intros _ Hnil. apply app_eq_nil in Hnil as [_ Hnil]. discriminate Hnil.
    - discriminate. }
  set (p3 := run p2 [Navigate A; Mutation]) in *.
  destruct Hback as (Hlog3 & Hcache3 & Ha3 & Hts3).
  assert (Hloaded3 : ContentScriptMeasures.loadedIsCached (log p) p3).
  { intros k' r Hk' Hin. rewrite Hlog3, Hk in Hk'.
    apply app_inv_head in Hk'. subst k'. destruct (Hquiet r Hin). }
  assert (Hpending3 : isYouTubeVideoPage A = true ->
                      ContentScriptMeasures.pendingOrStarted (log p) p3).
  { intros Hpage k' _. right. auto. }
  (* from then on *)
  destruct (progress_run (log p) A rest p3 H3 Hrest) as [Hlive Hcached].
  pose proof (settling_run _ _ rest _ H3 Hrest) as
    [Hloc4 _ _ Hts4 Haw4 Hc4 (k4 & Hk4 & Hvs4 & Hlen4)].
  assert (Hsame : d = k4).
  { rewrite Hk4 in Hd. by apply app_inv_head in Hd. }
  subst d.
  rewrite (since_app _ _ _ Hk4).
  split; [assumption |]. split; [assumption |]. split; [lia |].
  split.
  { intros Hpage Htimers.
    destruct (Hlive (Hpending3 Hpage) k4 Hk4) as [Hone | (Hsome & _)];
      [exact Hone | contradiction]. }
  split; [rewrite Ha in Hn; simpl in Hn; lia |].
  split; [assumption |]. split; [assumption |].
  intros r Hin.
  pose proof (Hcached Hloaded3 k4 r Hk4 Hin) as Hsome.
  split; [exact Hsome | by apply Hc4].
Qed.

Lemma rapid_navigation_settles_on_final_witness :
  let A := watch "?v=AAA" in
  let B := watch "?v=BBB" in
  let p := run (load false A 0)
             [Advance 100; Timeout 0; Advance 1500; Timeout 0;
              Settle 0 (Fulfilled (loaded "AAA"))] in
  let mid := [Mutation; Advance 500; OnMessage GetTranscript] in
  let rest := [Advance 2000; Timeout 0; Advance 500; Timeout 0;
               Settle 0 (Fulfilled (loaded "AAA"));
               Settle 0 (Fulfilled (loaded "AAA"))] in
  let p' := run p ([Navigate B; Mutation] ++ mid ++ [Navigate A; Mutation] ++ rest) in
  let started := extractionsOf (since p p') in
  location p' = A
  /\ Forall (fun v => v = getVideoId A) started
  /\ (length started <= 2)%nat
  /\ (isYouTubeVideoPage A = true -> timers p' = [] -> (1 <= length started)%nat)
  /\ (length started
      = length (awaiting p')
        + length (List.filter ContentScriptMeasures.isReport (since p p')))%nat
  /\ Forall (fun v => v = getVideoId A) (awaiting p')
  /\ (is_Some (transcriptCache p') -> currentVideoId p' = getVideoId A)
  /\ (forall r, In (Sent (TranscriptLoaded r)) (since p p') ->
        is_Some (transcriptCache p') /\ currentVideoId p' = getVideoId A).
Proof.
  apply rapid_navigation_settles_on_final.
  - vm_compute. repeat split.
  - reflexivity.
  - reflexivity.
  - vm_compute. discriminate.
  - repeat constructor.
  - reflexivity.
  - repeat constructor.
Defined.

(** C2, as stated, fails.  First run: the page is loaded at A, navigated
    to B after one second and back to A one second later; the timer of the
    load runs while the URL shows B, and the extraction it starts is
    fulfilled last, after A's navigation cleared the cache and A's own
    result was cached: it overwrites A's result, and the page ends with
    B's transcript under B's identifier while showing A.  Second run: on a
    page settled at A the same rapid navigation starts two extractions and
    reports two results. *)
Lemma late_result_overwrites_final_video :
  let A := watch "?v=AAA" in
  let B := watch "?v=BBB" in
  (let p' := run (load false A 0)
               [Advance 100; Timeout 0; Advance 900;
                Navigate B; Mutation; Advance 600; Timeout 0; Advance 400;
                Navigate A; Mutation; Advance 1500; Timeout 0;
                Settle 1 (Fulfilled (loaded "AAA"));
                Advance 1000; Timeout 0;
                Settle 0 (Fulfilled (loaded "BBB"))] in
   location p' = A
   /\ quiescent p'
   /\ currentVideoId p' = Some "BBB"
   /\ transcriptCache p' = Some (loaded "BBB")
   /\ ~ settledOn A p')
  /\ (let p := run (load false A 0)
                [Advance 100; Timeout 0; Advance 1500; Timeout 0;
                 Settle 0 (Fulfilled (loaded "AAA"))] in
      let p' := run p
                 [Navigate B; Mutation; Advance 500;
                  Navigate A; Mutation; Advance 2000; Timeout 0;
                  Advance 500; Timeout 0;
                  Settle 0 (Fulfilled (loaded "AAA"));
                  Settle 0 (Fulfilled (loaded "AAA"))] in
      quiescent p
      /\ extractionsOf (since p p') = [Some "AAA"; Some "AAA"]
      /\ since p p' = [Extraction (Some "AAA"); Extraction (Some "AAA");
                       Sent (TranscriptLoaded (loaded "AAA"));
                       Sent (TranscriptLoaded (loaded "AAA"))]).
Proof.
  split.
  - repeat split; try reflexivity.
    intros (_ & Hid & _). vm_compute in Hid. discriminate Hid.
  - repeat split; reflexivity.
Qed.

End ContentScriptFacts.

(** ** Properties of the background handler *)
Module BackgroundFacts.
Import Transcript Protocol Background Samples.

Lemma defined_truthy_Some (x : option Z) (t : Z) :
  defined_truthy x = Some t <-> x = Some t /\ t <> 0.
Proof.
  unfold defined_truthy, truthy. destruct x as [n |].
  - destruct (Z.eqb_spec n 0) as [-> | Hn]; simpl.
    + split; [discriminate | intros [[= <-] Hne]; contradiction].
    + split; [intros [= <-]; by split | intros [[= <-] _]; reflexivity].
  - split; [discriminate | intros [[=] _]].
Qed.

Lemma run_fst_app (st : State) (evs1 evs2 : list Event) :
  fst (run st (evs1 ++ evs2)) = fst (run (fst (run st evs1)) evs2).
Proof.
  revert st. induction evs1 as [| e evs1 IH]; intros st; simpl.
  - by destruct (run st evs2).
  - destruct (step st e) as [st1 effs1] eqn:Hstep.
    specialize (IH st1).
    destruct (run st1 (evs1 ++ evs2)) as [st2 effs2].
    destruct (run st1 evs1) as [st3 effs3]. simpl in *. exact IH.
Qed.

(** *** Error reports *)

(** C5, as stated, fails: tab 3 has the transcript of XYZ stored and
    reports an extraction error; the store is left as it was, so it records
    no error for the tab, and a later query for tab 3 still answers with
    the old transcript. *)
Lemma transcriptError_leaves_old_transcript :
  let st := {| transcriptStore := {[ 3 := loaded "XYZ" ]};
               chatHistoryStore := ∅ |} in
  let st' := fst (onMessage (Some 3) (TranscriptError (Some "No captions")) st) in
  ~ recordsError st' 3 (Some "No captions")
  /\ getTranscriptForCurrentTab st' [{| id := Some 3 |}] = Some (loaded "XYZ")
  /\ snd (queryCallback QGetTranscript [{| id := Some 3 |}] 0 st')
     = [Responded (ResponseData (loaded "XYZ"))].
Proof.
  split; [| split; reflexivity].
  intros (r & Hr & Hfail & _). simpl in Hr.
  rewrite lookup_singleton_eq in Hr. injection Hr as <-. discriminate Hfail.
Qed.

(** C5, amended.  On a [transcriptError] report the handler changes
    neither map, whatever tab reports and whatever is stored: its only
    effect is to forward the report to the panel, it starts no retry, and
    every query is answered afterwards as it was before. *)
Theorem transcriptError_only_forwarded (st : State) (senderTab : option Z)
    (payload : option string) :
  let st' := fst (onMessage senderTab (TranscriptError payload) st) in
  let effs := snd (onMessage senderTab (TranscriptError payload) st) in
  st' = st
  /\ effs = [Forwarded (TranscriptError payload)]
  /\ (forall (tabs : list Tab) (now : Z),
        queryCallback QGetTranscript tabs now st'
        = queryCallback QGetTranscript tabs now st)
  /\ (forall tabs : list Tab,
        getTranscriptForCurrentTab st' tabs = getTranscriptForCurrentTab st tabs).
Proof. simpl. repeat split; reflexivity. Qed.

(** *** New-video transitions *)

(** Without a chat history for the tab there is nothing to clear, and
    [chatHistoryStore.delete] is not called. *)
Lemma new_video_without_history (st : State) (tabId : Z) (payload : TranscriptResult) :
  tabId <> 0 ->
  chatHistoryStore st !! tabId = None ->
  onMessage (Some tabId) (TranscriptLoaded payload) st
  = (setTranscriptStore (<[tabId := payload]> (transcriptStore st)) st,
     [TranscriptStoreSet tabId payload; Forwarded (TranscriptLoaded payload)]).
Proof.
  intros Htab Hnone. unfold onMessage.
  rewrite (proj2 (defined_truthy_Some (Some tabId) tabId)) by done.
  simpl. rewrite Hnone.
  rewrite (bool_decide_eq_false_2 (is_Some None)) by (by intros [? ?]).
  by rewrite andb_false_r.
Qed.

Lemma step_no_falsy_key (st : State) (e : Event) :
  transcriptStore st !! 0 = None ->
  transcriptStore (fst (step st e)) !! 0 = None.
Proof.
  intros Hzero.
  destruct e as [senderTab m | q tabs now | tabId]; simpl.
  - destruct m; simpl; try assumption.
    destruct (defined_truthy senderTab) as [tab |] eqn:Htab; [| assumption].
    apply defined_truthy_Some in Htab as [_ Hne].
    destruct (negb _ && bool_decide _); simpl; by rewrite lookup_insert_ne.
  - destruct q as [| question | response]; simpl.
    + by destruct (defined_truthy (firstTabId tabs) ≫= _).
    + by destruct (defined_truthy (firstTabId tabs)).
    + by destruct (defined_truthy (firstTabId tabs)).
  - apply lookup_delete_None. by right.
Qed.

Lemma run_no_falsy_key (evs : list Event) : forall st : State,
  transcriptStore st !! 0 = None ->
  transcriptStore (fst (run st evs)) !! 0 = None.
Proof.
  induction evs as [| e evs IH]; intros st Hzero; [assumption |].
  pose proof (step_no_falsy_key st e Hzero) as Hstep.
  simpl. destruct (step st e) as [st1 effs1].
  specialize (IH st1 Hstep). by destruct (run st1 evs).
Qed.

(** No transcript is ever stored under the tab identifier 0, which the
    listener's [if (tabId)] takes for a missing one. *)
Lemma reachable_no_falsy_key (st : State) :
  reachable st -> transcriptStore st !! 0 = None.
Proof. intros [evs <-]. by apply run_no_falsy_key. Qed.

(** C6, as stated, fails: tab 3 has the transcript of OLD stored and no
    chat history; when the transcript of NEW arrives the stored transcript is
    replaced, but the guarded [chatHistoryStore.delete] is skipped, so the
    clearing fires zero times, not once. *)
Lemma new_video_without_history_clears_nothing :
  let st := fst (run initial [OnMessage (Some 3) (TranscriptLoaded (loaded "OLD"))]) in
  let st' := fst (onMessage (Some 3) (TranscriptLoaded (loaded "NEW")) st) in
  let effs := snd (onMessage (Some 3) (TranscriptLoaded (loaded "NEW")) st) in
  (transcriptStore st !! 3 ≫= videoId) = Some "OLD"
  /\ transcriptStore st' !! 3 = Some (loaded "NEW")
  /\ effs = [TranscriptStoreSet 3 (loaded "NEW");
             Forwarded (TranscriptLoaded (loaded "NEW"))]
  /\ chatHistoryDeletions 3 effs <> 1%nat.
Proof. repeat split. vm_compute. discriminate. Qed.

(** C6, amended.  When a [transcriptLoaded] message comes from a tab whose
    stored transcript has another [videoId] than the payload, the payload
    replaces the stored transcript and the tab has no chat history
    afterwards: [chatHistoryStore.delete] is called for the tab exactly once
    when it had a record, not at all when it had none, and never for another
    tab; the payload is forwarded to the panel. *)
Theorem new_video_replaces_transcript_and_clears_chat (st : State) (tabId : Z)
    (previous payload : TranscriptResult) :
  reachable st ->
  transcriptStore st !! tabId = Some previous ->
  videoId previous <> videoId payload ->
  let st' := fst (onMessage (Some tabId) (TranscriptLoaded payload) st) in
  let effs := snd (onMessage (Some tabId) (TranscriptLoaded payload) st) in
  transcriptStore st' = <[tabId := payload]> (transcriptStore st)
  /\ chatHistoryStore st' = delete tabId (chatHistoryStore st)
  /\ chatHistoryStore st' !! tabId = None
  /\ (is_Some (chatHistoryStore st !! tabId) -> chatHistoryDeletions tabId effs = 1%nat)
  /\ (chatHistoryStore st !! tabId = None -> chatHistoryDeletions tabId effs = 0%nat)
  /\ (forall t, t <> tabId -> chatHistoryDeletions t effs = 0%nat)
  /\ In (Forwarded (TranscriptLoaded payload)) effs.
Proof.
  intros Hreach Hprev Hnew st' effs.
  assert (Htab : tabId <> 0).
  { intros ->. rewrite (reachable_no_falsy_key st Hreach) in Hprev. discriminate. }
  destruct (chatHistoryStore st !! tabId) as [history |] eqn:Hhist.
  - assert (Hrun : onMessage (Some tabId) (TranscriptLoaded payload) st
                   = (setChatHistoryStore (delete tabId (chatHistoryStore st))
                        (setTranscriptStore (<[tabId := payload]> (transcriptStore st)) st),
                      [TranscriptStoreSet tabId payload; ChatHistoryStoreDelete tabId;
                       Forwarded (TranscriptLoaded payload)])).
    { unfold onMessage.
      rewrite (proj2 (defined_truthy_Some (Some tabId) tabId)) by done.
      simpl. rewrite Hprev, Hhist. simpl.
      rewrite (bool_decide_eq_false_2 _ Hnew). reflexivity. }
    subst st' effs. rewrite Hrun. simpl.
    split; [reflexivity |]. split; [reflexivity |].
    split; [apply lookup_delete_eq |].
    split; [| split; [discriminate | split]].
    + intros _. unfold chatHistoryDeletions. simpl.
      by rewrite bool_decide_eq_true_2.
    + intros t Hne. unfold chatHistoryDeletions. simpl.
      by rewrite bool_decide_eq_false_2 by congruence.
    + right. right. by left.
  - subst st' effs. rewrite (new_video_without_history st tabId payload Htab Hhist).
    simpl.
    split; [reflexivity |].
    split; [symmetry; by apply delete_id |].
    split; [assumption |].
    split; [by intros [? ?] |].
    split; [reflexivity |].
    split; [reflexivity |].
    right. by left.
Qed.

Lemma new_video_replaces_transcript_and_clears_chat_witness :
  let st := fst (run initial
                   [OnMessage (Some 3) (TranscriptLoaded (loaded "OLD"));
                    OnQueryResult (QSendChatMessage "What is this about?")
                      [{| id := Some 3 |}] 1700000000000]) in
  let payload := loaded "NEW" in
  let st' := fst (onMessage (Some 3) (TranscriptLoaded payload) st) in
  let effs := snd (onMessage (Some 3) (TranscriptLoaded payload) st) in
  transcriptStore st' = <[3 := payload]> (transcriptStore st)
  /\ chatHistoryStore st' = delete 3 (chatHistoryStore st)
  /\ chatHistoryStore st' !! 3 = None
  /\ (is_Some (chatHistoryStore st !! 3) -> chatHistoryDeletions 3 effs = 1%nat)
  /\ (chatHistoryStore st !! 3 = None -> chatHistoryDeletions 3 effs = 0%nat)
  /\ (forall t, t <> 3 -> chatHistoryDeletions t effs = 0%nat)
  /\ In (Forwarded (TranscriptLoaded payload)) effs.
Proof.
  apply (new_video_replaces_transcript_and_clears_chat _ 3 (loaded "OLD") (loaded "NEW")).
  - eexists. reflexivity.
  - reflexivity.
  - simpl. discriminate.
Defined.

(** *** Closed tabs *)

Lemma silent_step (t : Z) (st : State) (e : Event) :
  transcriptStore st !! t = None ->
  chatHistoryStore st !! t = None ->
  silentAbout t e ->
  transcriptStore (fst (step st e)) !! t = None
  /\ chatHistoryStore (fst (step st e)) !! t = None.
Proof.
  intros Htr Hch Hsilent.
  destruct e as [senderTab m | q tabs now | tabId]; simpl in *.
  - destruct m; simpl; try (split; assumption).
    destruct (defined_truthy senderTab) as [tab |] eqn:Htab; [| split; assumption].
    apply defined_truthy_Some in Htab as [-> _].
    assert (Hne : tab <> t) by congruence.
    destruct (negb _ && bool_decide _); simpl;
      rewrite ?lookup_insert_ne, ?lookup_delete_ne by done; split; assumption.
  - destruct q as [| question | response]; simpl.
    + destruct (defined_truthy (firstTabId tabs) ≫= _); split; assumption.
    + destruct (defined_truthy (firstTabId tabs)) as [tab |] eqn:Htab;
        [| split; assumption].
      apply defined_truthy_Some in Htab as [Htab _].
      assert (Hne : tab <> t) by congruence.
      simpl. rewrite lookup_insert_ne by done. split; assumption.
    + destruct (defined_truthy (firstTabId tabs)) as [tab |] eqn:Htab;
        [| split; assumption].
      apply defined_truthy_Some in Htab as [Htab _].
      assert (Hne : tab <> t) by congruence.
      simpl. rewrite lookup_insert_ne by done. split; assumption.
  - split; apply lookup_delete_None; by right.
Qed.

Lemma silent_run (t : Z) (evs : list Event) : forall st : State,
  transcriptStore st !! t = None ->
  chatHistoryStore st !! t = None ->
  Forall (silentAbout t) evs ->
  transcriptStore (fst (run st evs)) !! t = None
  /\ chatHistoryStore (fst (run st evs)) !! t = None.
Proof.
  induction evs as [| e evs IH]; intros st Htr Hch Hsilent; [by split |].
  inversion Hsilent as [| ? ? He Hrest]; subst.
  destruct (silent_step t st e Htr Hch He) as [Htr1 Hch1].
  simpl. destruct (step st e) as [st1 effs1].
  specialize (IH st1 Htr1 Hch1 Hrest).
  destruct (run st1 evs) as [st2 effs2]. exact IH.
Qed.

(** C7.  Once the tab-closed event of tab [t] is processed, and as long as
    no later message comes from [t] and no later query names [t] as the
    active tab, neither map has an entry for [t], whatever was stored
    before and whatever other tabs do; and a query answered with [t] as
    the active tab finds no transcript and no chat history. *)
Theorem closed_tab_has_no_state (st : State) (before after : list Event) (t : Z) :
  Forall (silentAbout t) after ->
  let st' := fst (run st (before ++ OnRemoved t :: after)) in
  transcriptStore st' !! t = None
  /\ chatHistoryStore st' !! t = None
  /\ forall (tabs : list Tab) (now : Z),
       firstTabId tabs = Some t ->
       getTranscriptForCurrentTab st' tabs = None
       /\ getChatHistoryForCurrentTab st' tabs = []
       /\ queryCallback QGetTranscript tabs now st'
          = (st', [Responded (ResponseError "No transcript available for current tab")]).
Proof.
  intros Hsilent st'.
  assert (Hgone : transcriptStore st' !! t = None /\ chatHistoryStore st' !! t = None).
  { subst st'. rewrite run_fst_app.
    change (OnRemoved t :: after) with ([OnRemoved t] ++ after).
    rewrite run_fst_app.
    apply silent_run; [apply lookup_delete_eq | apply lookup_delete_eq | exact Hsilent]. }
  destruct Hgone as [Htr Hch].
  split; [exact Htr | split; [exact Hch |]].
  intros tabs now Hactive.
  unfold getTranscriptForCurrentTab, getChatHistoryForCurrentTab, queryCallback.
  rewrite Hactive. unfold defined_truthy.
  destruct (truthy t); simpl; rewrite ?Htr, ?Hch; repeat split; reflexivity.
Qed.

Lemma closed_tab_has_no_state_witness :
  let st := {| transcriptStore := {[ 7 := loaded "XYZ" ]};
               chatHistoryStore :=
                 {[ 7 := [{| role := user; content := "Summarize";
                             timestamp := 1700000000000 |}] ]} |} in
  let st' := fst (run st ([OnMessage (Some 7) (TranscriptLoaded (loaded "XYZ"))]
                          ++ OnRemoved 7
                          :: [OnMessage (Some 3) (TranscriptLoaded (loaded "NEW"));
                              OnQueryResult (QSendChatMessage "Why?") [{| id := Some 3 |}] 5;
                              OnMessage None GetTranscript])) in
  transcriptStore st' !! 7 = None
  /\ chatHistoryStore st' !! 7 = None
  /\ forall (tabs : list Tab) (now : Z),
       firstTabId tabs = Some 7 ->
       getTranscriptForCurrentTab st' tabs = None
       /\ getChatHistoryForCurrentTab st' tabs = []
       /\ queryCallback QGetTranscript tabs now st'
          = (st', [Responded (ResponseError "No transcript available for current tab")]).
Proof.
  apply closed_tab_has_no_state.
  repeat constructor; simpl; discriminate.
Defined.

End BackgroundFacts.

(** ** Properties of the track selector *)
Module TrackSelectorFacts.
Import TrackSelector.

Lemma languageRank_le (t : CaptionTrack) : (languageRank t <= 2)%nat.
Proof.
  unfold languageRank.
  destruct (String.eqb _ _); [lia |]. destruct (String.prefix _ _); lia.
Qed.

Lemma rank_manual (t : CaptionTrack) :
  isAutoGenerated t = false <-> (rank t <= 2)%nat.
Proof.
  unfold rank. pose proof (languageRank_le t).
  destruct (isAutoGenerated t); split; intros; (lia || congruence).
Qed.

Lemma best_least (rest : list CaptionTrack) : forall current : CaptionTrack,
  In (best current rest) (current :: rest)
  /\ forall t, In t (current :: rest) -> (rank (best current rest) <= rank t)%nat.
Proof.
  induction rest as [| t rest IH]; intros current; simpl.
  - split; [by left |]. intros t [<- | []]. lia.
  - destruct (Nat.ltb_spec (rank t) (rank current)) as [Hlt | Hge].
    + destruct (IH t) as [Hin Hleast]. split.
      * simpl in Hin. tauto.
      * intros x [<- | Hx]; [| by apply Hleast].
        specialize (Hleast t (or_introl eq_refl)). lia.
    + destruct (IH current) as [Hin Hleast]. split.
      * simpl in Hin. tauto.
      * intros x [<- | [<- | Hx]].
        -- apply Hleast. by left.
        -- specialize (Hleast current (or_introl eq_refl)). lia.
        -- apply Hleast. by right.
Qed.

(** C9.  From a list with at least one manually-created and at least one
    auto-generated track, in whatever order it is listed, the selector
    returns a track of the list that is manually created. *)
Theorem selectTrack_prefers_manual (tracks tracks' : list CaptionTrack)
    (manual auto : CaptionTrack) :
  In manual tracks -> isAutoGenerated manual = false ->
  In auto tracks -> isAutoGenerated auto = true ->
  Permutation tracks tracks' ->
  exists t, selectTrack tracks' = inr t
            /\ In t tracks
            /\ isAutoGenerated t = false.
Proof.
  intros Hmanual Hm _ _ Hperm.
  assert (Hmanual' : In manual tracks') by (eapply Permutation_in; eassumption).
  destruct tracks' as [| first rest]; [contradiction |].
  exists (best first rest). simpl.
  destruct (best_least rest first) as [Hin Hleast].
  split; [reflexivity | split].
  - eapply Permutation_in; [symmetry; exact Hperm | exact Hin].
  - apply rank_manual. specialize (Hleast manual Hmanual').
    apply rank_manual in Hm. lia.
Qed.

Lemma selectTrack_prefers_manual_witness :
  let manual := {| languageCode := "en"; isAutoGenerated := false;
                   baseUrl := "https://www.youtube.com/api/timedtext?lang=en";
                   trackName := "English" |} in
  let auto := {| languageCode := "es"; isAutoGenerated := true;
                 baseUrl := "https://www.youtube.com/api/timedtext?lang=es&kind=asr";
                 trackName := "Spanish (auto-generated)" |} in
  exists t, selectTrack [auto; manual] = inr t
            /\ In t [manual; auto]
            /\ isAutoGenerated t = false.
Proof.
  apply (selectTrack_prefers_manual
           [ {| languageCode := "en"; isAutoGenerated := false;
                baseUrl := "https://www.youtube.com/api/timedtext?lang=en";
                trackName := "English" |};
             {| languageCode := "es"; isAutoGenerated := true;
                baseUrl := "https://www.youtube.com/api/timedtext?lang=es&kind=asr";
                trackName := "Spanish (auto-generated)" |} ]
           _
           {| languageCode := "en"; isAutoGenerated := false;
              baseUrl := "https://www.youtube.com/api/timedtext?lang=en";
              trackName := "English" |}
           {| languageCode := "es"; isAutoGenerated := true;
              baseUrl := "https://www.youtube.com/api/timedtext?lang=es&kind=asr";
              trackName := "Spanish (auto-generated)" |}).
  - simpl. left. reflexivity.
  - reflexivity.
  - simpl. right. left. reflexivity.
  - reflexivity.
  - apply perm_swap.
Defined.

End TrackSelectorFacts.

(** ** Invariants of the content script *)
Module ContentScriptInvariants.
Import Url Transcript Protocol ContentScript Samples ContentScriptFacts ContentScriptMeasures.

(** An invariant of pages, kept by every turn of the event loop, holds after
    every run. *)
Section Invariant.
Variable I : Page -> Prop.
Hypothesis I_step : forall p e, I p -> I (step p e).

Lemma invariant_run (evs : list Event) : forall p, I p -> I (run p evs).
Proof.
  induction evs as [| e evs IH]; intros p Hp; [exact Hp |].
  change (run p (e :: evs)) with (run (step p e) evs). auto.
Qed.
End Invariant.

(** The case analysis of one turn: every branch [step] can take, with the
    tests that select it in the context. *)
Ltac step_cases p e :=
  let t := fresh "t" in
  let v := fresh "v" in
  destruct e as [? | ? | | | ? | ? [? | ? |] | []]; simpl;
  [ (* Navigate *) idtac
  | (* Advance *) idtac
  | (* DOMContentLoaded *)
    destruct (listening p) eqn:?; simpl;
    [ unfold initializeContentScript; simpl;
      destruct (isYouTubeVideoPage (location p)) eqn:?; simpl | ]
  | (* Mutation *)
    unfold mutationObserver;
    destruct (String.eqb_spec (href (location p)) (lastUrl p)); simpl;
    [ | destruct (isYouTubeVideoPage (location p)) eqn:?; simpl ]
  | (* Timeout *)
    match goal with
    | |- context [timers p !! ?i] =>
        destruct (timers p !! i) as [t |] eqn:?; simpl;
        [ destruct (deadline t <=? clock p) eqn:?; simpl;
          [ destruct (callback t) eqn:?; simpl;
            [ unfold initializeContentScript; simpl;
              destruct (isYouTubeVideoPage (location p)) eqn:?; simpl
            | unfold extractAndSendTranscript; simpl;
              destruct (bool_decide (getVideoId (location p) = currentVideoId p)
                        && bool_decide (is_Some (transcriptCache p))) eqn:?;
              simpl ]
          | ]
        | ]
    end
  | (* Settle, fulfilled *)
    match goal with
    | |- context [awaiting p !! ?i] =>
        destruct (awaiting p !! i) as [v |] eqn:?; simpl;
        [ match goal with
          | |- context [success ?r] => destruct (success r) eqn:?; simpl
          end
        | ]
    end
  | (* Settle, rejected with an Error *)
    match goal with
    | |- context [awaiting p !! ?i] =>
        destruct (awaiting p !! i) as [v |] eqn:?; simpl
    end
  | (* Settle, rejected otherwise *)
    match goal with
    | |- context [awaiting p !! ?i] =>
        destruct (awaiting p !! i) as [v |] eqn:?; simpl
    end
  | .. ];
  try match goal with
      | |- context [match transcriptCache p with _ => _ end] =>
          destruct (transcriptCache p) eqn:?; simpl
      | |- context [match ?seconds with Some _ => _ | None => _ end] =>
          destruct seconds eqn:?; simpl
      end.

Lemma keyedCache_step (p : Page) (e : Event) :
  keyedCache p -> keyedCache (step p e).
Proof.
  unfold keyedCache. intros Hp.
  step_cases p e; try assumption; try discriminate; try reflexivity;
    intuition congruence.
Qed.

Lemma keyedCache_load (loading : bool) (l : Location) (t : Z) :
  keyedCache (load loading l t).
Proof. by destruct loading. Qed.

(** After every run from the script's load, [currentVideoId] is set only
    while a result is cached: when [transcriptCache] is null, so is
    [currentVideoId]. *)
Theorem video_id_only_with_cached_result (loading : bool) (l : Location) (t : Z)
    (evs : list Event) :
  let p := run (load loading l t) evs in
  transcriptCache p = None -> currentVideoId p = None.
Proof.
  apply (invariant_run keyedCache keyedCache_step), keyedCache_load.
Qed.

Lemma video_id_only_with_cached_result_witness :
  let p := run (load false (watch "?v=XYZ") 0)
             [Advance 100; Timeout 0; Advance 1500; Timeout 0;
              Settle 0 (Fulfilled (loaded "XYZ"));
              Navigate (watch "?v=NEW"); Mutation] in
  transcriptCache p = None /\ currentVideoId p = None.
Proof.
  split; [reflexivity |].
  apply (video_id_only_with_cached_result false (watch "?v=XYZ") 0
           [Advance 100; Timeout 0; Advance 1500; Timeout 0;
            Settle 0 (Fulfilled (loaded "XYZ"));
            Navigate (watch "?v=NEW"); Mutation]).
  reflexivity.
Defined.

(** *** What is sent *)

Lemma Forall_scriptEffect_snoc (k : list Effect) (e : Effect) :
  Forall scriptEffect k -> scriptEffect e -> Forall scriptEffect (k ++ [e]).
Proof. intros Hk He. apply Forall_app. split; [exact Hk | by constructor]. Qed.

Lemma scriptEffect_step (p : Page) (e : Event) :
  Forall scriptEffect (log p) -> Forall scriptEffect (log (step p e)).
Proof.
  intros Hp.
  step_cases p e; try assumption;
    apply Forall_scriptEffect_snoc; simpl; auto.
Qed.

Lemma filter_delete_lookup {A} (f : A -> bool) (l : list A) (i : nat) (x : A) :
  l !! i = Some x ->
  (length (List.filter f l)
   = (if f x then 1 else 0) + length (List.filter f (delete i l)))%nat.
Proof.
  revert i. induction l as [| y l IH]; intros [| i] Hi; try discriminate.
  - injection Hi as ->. simpl. destruct (f x); reflexivity.
  - simpl in Hi |- *. specialize (IH i Hi).
    destruct (f y); simpl; lia.
Qed.

Lemma initializedOnce_step (p : Page) (e : Event) :
  initializedOnce p -> initializedOnce (step p e).
Proof.
  unfold initializedOnce. intros Hp.
  step_cases p e; try assumption;
    repeat match goal with
           | H : timers p !! _ = Some _ |- _ =>
               rewrite (filter_delete_lookup isInitializeTimer _ _ _ H) in Hp;
               unfold isInitializeTimer at 1 in Hp; clear H
           | H : callback _ = _ |- _ => rewrite H in Hp
           end;
    try match goal with
        | H : listening p = _ |- _ => rewrite ?H
        end;
    rewrite ?List.filter_app, ?length_app; simpl; lia.
Qed.

Lemma initializedOnce_load (loading : bool) (l : Location) (t : Z) :
  initializedOnce (load loading l t).
Proof. by destruct loading. Qed.

(** After every run from the script's load, every message the script has
    sent is [sidebarLoaded] with [true], [transcriptLoaded] with a result
    whose [success] is true, or [transcriptError]; and [sidebarLoaded] was
    sent at most once. *)
Theorem only_known_messages_sent (loading : bool) (l : Location) (t : Z)
    (evs : list Event) :
  let p := run (load loading l t) evs in
  (forall m, In (Sent m) (log p) -> scriptMessage m)
  /\ (length (List.filter isSidebarLoaded (log p)) <= 1)%nat.
Proof.
  intros p. split.
  - intros m Hm.
    assert (Hall : Forall scriptEffect (log p)).
    { apply (invariant_run (fun q => Forall scriptEffect (log q)) scriptEffect_step).
      destruct loading; constructor. }
    rewrite List.Forall_forall in Hall. exact (Hall (Sent m) Hm).
  - pose proof (invariant_run initializedOnce initializedOnce_step evs _
                  (initializedOnce_load loading l t)) as Hone.
    fold p in Hone. unfold initializedOnce in Hone. lia.
Qed.

(** *** Every extraction is reported once *)

Lemma accounted_step (p : Page) (e : Event) : accounted p -> accounted (step p e).
Proof.
  unfold accounted, extractions, extractionsOf, reports. intros Hp.
  step_cases p e; try assumption;
    repeat match goal with
           | H : awaiting p !! _ = Some _ |- _ =>
               pose proof (lookup_lt_Some _ _ _ H);
               rewrite (length_delete _ _ (mk_is_Some _ _ H)); clear H
           end;
    rewrite ?omap_app, ?List.filter_app, ?length_app; simpl; lia.
Qed.

Lemma accounted_load (loading : bool) (l : Location) (t : Z) :
  accounted (load loading l t).
Proof. by destruct loading. Qed.

(** After every run from the script's load, each call of
    [extractVideoTranscript()] is either still awaited or was answered by
    exactly one report ([transcriptLoaded] or [transcriptError]): the
    extractions started are as many as the suspended calls and the reports
    sent together. *)
Theorem every_extraction_reported_once (loading : bool) (l : Location) (t : Z)
    (evs : list Event) :
  let p := run (load loading l t) evs in
  (length (extractions p) = length (awaiting p) + length (reports p))%nat.
Proof.
  apply (invariant_run accounted accounted_step), accounted_load.
Qed.

(** *** At most one fetch per URL change *)

Lemma potential_step (p : Page) (e : Event) :
  (budget (step p e) + unseenUrl (step p e)
   <= budget p + unseenUrl p + (if isNavigate e then 1 else 0))%nat.
Proof.
  unfold budget, unseenUrl, extractions, extractionsOf.
  step_cases p e;
    rewrite ?omap_app, ?length_app;
    repeat match goal with
           | H : timers p !! _ = Some _ |- _ =>
               pose proof (lookup_lt_Some _ _ _ H);
               rewrite (length_delete _ _ (mk_is_Some _ _ H)); clear H
           | H : listening p = _ |- _ => rewrite ?H; clear H
           | H : href (location p) = lastUrl p |- _ => rewrite ?H; clear H
           | H : href (location p) <> lastUrl p |- _ =>
               apply String.eqb_neq in H; rewrite ?H; clear H
           end;
    rewrite ?String.eqb_refl, ?omap_app, ?length_app; simpl;
    repeat match goal with
           | |- context [String.eqb ?a ?b] => destruct (String.eqb a b)
           end;
    lia.
Qed.

Lemma potential_run (evs : list Event) : forall p : Page,
  (budget (run p evs) + unseenUrl (run p evs)
   <= budget p + unseenUrl p + navigations evs)%nat.
Proof.
  unfold navigations.
  induction evs as [| e evs IH]; intros p; [simpl; lia |].
  change (run p (e :: evs)) with (run (step p e) evs).
  specialize (IH (step p e)). pose proof (potential_step p e) as Hstep.
  simpl. destruct (isNavigate e); simpl; lia.
Qed.

(** After every run from the script's load, [extractVideoTranscript()] was
    called at most once for the load and once more per change of the URL. *)
Theorem fetches_bounded_by_navigations (loading : bool) (l : Location) (t : Z)
    (evs : list Event) :
  (length (extractions (run (load loading l t) evs)) <= 1 + navigations evs)%nat.
Proof.
  pose proof (potential_run evs (load loading l t)) as Hrun.
  rewrite budget_load in Hrun.
  assert (Hseen : unseenUrl (load loading l t) = 0%nat).
  { unfold unseenUrl. destruct loading; simpl; by rewrite String.eqb_refl. }
  rewrite Hseen in Hrun. unfold budget in Hrun at 1. lia.
Qed.

(** *** Off the video page *)

Lemma idle_step (l : Location) (p : Page) (e : Event) :
  isYouTubeVideoPage l = false ->
  idle l p -> isNavigate e = false -> idle l (step p e).
Proof.
  intros Hpage [Hloc Hurl Hts Haw Hc Hex] Hnav.
  rewrite <- Hloc in Hpage.
  step_cases p e; try discriminate;
    try match goal with
        | H : timers p !! _ = Some ?t, H' : callback ?t = CbExtractAndSendTranscript |- _ =>
            rewrite (Forall_lookup_1 _ _ _ _ Hts H) in H'; discriminate H'
        | H : awaiting p !! _ = Some _ |- _ => rewrite Haw in H; discriminate H
        end;
    try congruence;
    constructor; simpl; try assumption; try (by apply Forall_delete);
    unfold extractions, extractionsOf in *; simpl;
    rewrite ?omap_app, ?Hex; try reflexivity; congruence.
Qed.

Lemma idle_load (loading : bool) (l : Location) (t : Z) : idle l (load loading l t).
Proof. destruct loading; constructor; simpl; auto. Qed.

(** On a page that is not a video page and is not navigated, the script
    never calls [extractVideoTranscript()]: after every run from its load
    nothing was extracted, nothing is awaited and nothing is cached. *)
Theorem no_extraction_off_video_page (loading : bool) (l : Location) (t : Z)
    (evs : list Event) :
  isYouTubeVideoPage l = false ->
  Forall (fun e => isNavigate e = false) evs ->
  let p := run (load loading l t) evs in
  extractions p = [] /\ awaiting p = [] /\ transcriptCache p = None.
Proof.
  intros Hpage Hnav.
  assert (Hidle : forall p, idle l p -> idle l (run p evs)).
  { induction evs as [| e evs IH]; intros p Hp; [exact Hp |].
    inversion Hnav as [| ? ? He Hnav']; subst.
    change (run p (e :: evs)) with (run (step p e) evs).
    apply IH; [exact Hnav' | by apply idle_step]. }
  destruct (Hidle _ (idle_load loading l t)) as [_ _ _ Haw Hc Hex].
  simpl. auto.
Qed.

Lemma no_extraction_off_video_page_witness :
  let p := run (load true home 0)
             [DOMContentLoaded; Mutation; Advance 5000; Timeout 0;
              OnMessage GetTranscript] in
  extractions p = [] /\ awaiting p = [] /\ transcriptCache p = None.
Proof.
  apply (no_extraction_off_video_page true home 0).
  - reflexivity.
  - repeat constructor.
Defined.

(** *** Timers are not cancelled *)

(** A settle timer set on the way through a video page survives leaving
    it: when the URL goes to the video page [B] and then to [H], which is
    not a video page, the timer of [B] still runs 2500 ms later and calls
    [extractVideoTranscript()] on [H]. *)
Theorem settle_timer_survives_leaving (p : Page) (B H : Location) :
  href B <> lastUrl p ->
  isYouTubeVideoPage B = true ->
  href H <> href B ->
  isYouTubeVideoPage H = false ->
  let p' := run p [Navigate B; Mutation; Navigate H; Mutation;
                   Advance 2500; Timeout (length (timers p))] in
  since p p' = [Extraction (getVideoId H)]
  /\ awaiting p' = awaiting p ++ [getVideoId H]
  /\ timers p' = timers p.
Proof.
  intros HB HBpage HH HHpage. simpl.
  rewrite (mutationObserver_new_url (setLocation B p)) by exact HB.
  simpl. rewrite HBpage.
  rewrite mutationObserver_new_url by (simpl; congruence).
  simpl. rewrite HHpage. simpl.
  rewrite lookup_app_r by reflexivity.
  rewrite Nat.sub_diag. simpl.
  assert (Hdue : (clock p + 2500 <=? clock p + Z.max 0 2500) = true)
    by (apply Z.leb_le; lia).
  rewrite Hdue. simpl. unfold extractAndSendTranscript. simpl.
  rewrite andb_false_r. simpl.
  assert (Hdel : delete (length (timers p))
                   (timers p ++ [{| deadline := clock p + 2500;
                                    callback := CbExtractAndSendTranscript |}])
                 = timers p).
  { clear. induction (timers p) as [| t ts IH]; simpl; [reflexivity | by rewrite IH]. }
  rewrite Hdel. repeat split. unfold since. simpl. by rewrite drop_app_length.
Qed.

Lemma settle_timer_survives_leaving_witness :
  let p := run (load false (watch "?v=XYZ") 0)
             [Advance 100; Timeout 0; Advance 1500; Timeout 0;
              Settle 0 (Fulfilled (loaded "XYZ"))] in
  let p' := run p [Navigate (watch "?v=NEW"); Mutation; Navigate home; Mutation;
                   Advance 2500; Timeout (length (timers p))] in
  since p p' = [Extraction (getVideoId home)]
  /\ awaiting p' = awaiting p ++ [getVideoId home]
  /\ timers p' = timers p.
Proof.
  apply settle_timer_survives_leaving.
  - vm_compute. discriminate.
  - reflexivity.
  - vm_compute. discriminate.
  - reflexivity.
Defined.

(** *** Failures that are cached and failures that are not *)

(** An extraction of the current URL settles while nothing is cached.  If
    its promise is rejected, nothing is cached and the next call of
    [extractAndSendTranscript] fetches again; if it is fulfilled, even with
    a result that reports failure, the result is cached and the next call
    returns at once. *)
Theorem rejection_retried_failure_cached (p : Page) (i : nat)
    (s : Settlement) (result : TranscriptResult) :
  awaiting p !! i = Some (getVideoId (location p)) ->
  transcriptCache p = None ->
  (forall r, s <> Fulfilled r) ->
  let p1 := step p (Settle i s) in
  let p2 := step p (Settle i (Fulfilled result)) in
  transcriptCache p1 = None
  /\ since p1 (extractAndSendTranscript p1) = [Extraction (getVideoId (location p))]
  /\ transcriptCache p2 = Some result
  /\ extractAndSendTranscript p2 = p2.
Proof.
  intros Hi Hc Hs. simpl. rewrite Hi.
  assert (Hguard : forall q, location q = location p ->
            currentVideoId q = getVideoId (location p) ->
            is_Some (transcriptCache q) -> extractAndSendTranscript q = q).
  { intros q Hl Hv Hsome. unfold extractAndSendTranscript.
    rewrite Hl, (bool_decide_eq_true_2 _ (eq_sym Hv)), (bool_decide_eq_true_2 _ Hsome).
    reflexivity. }
  assert (Hfetch : forall q, location q = location p -> transcriptCache q = None ->
            since q (extractAndSendTranscript q) = [Extraction (getVideoId (location p))]).
  { intros q Hl Hnone. unfold extractAndSendTranscript.
    rewrite Hl, Hnone, (bool_decide_eq_false_2 (is_Some None)) by (by intros [? ?]).
    rewrite andb_false_r. unfold since. simpl. by rewrite drop_app_length. }
  split; [| split; [| split]].
  - destruct s as [r | message |]; [by destruct (Hs r) | exact Hc | exact Hc].
  - destruct s as [r | message |]; [by destruct (Hs r) | |];
      apply Hfetch; (reflexivity || exact Hc).
  - simpl. by destruct (success result).
  - simpl. destruct (success result); apply Hguard; simpl; eauto.
Qed.

Lemma rejection_retried_failure_cached_witness :
  let p := run (load false (watch "?v=XYZ") 0)
             [Advance 100; Timeout 0; Advance 1500; Timeout 0] in
  let p1 := step p (Settle 0 (RejectedError "Failed to fetch")) in
  let p2 := step p (Settle 0 (Fulfilled (failed "No captions available"))) in
  transcriptCache p1 = None
  /\ since p1 (extractAndSendTranscript p1)
     = [Extraction (getVideoId (location p))]
  /\ transcriptCache p2 = Some (failed "No captions available")
  /\ extractAndSendTranscript p2 = p2.
Proof.
  apply (rejection_retried_failure_cached
           (run (load false (watch "?v=XYZ") 0)
                [Advance 100; Timeout 0; Advance 1500; Timeout 0])
           0 (RejectedError "Failed to fetch") (failed "No captions available")).
  - reflexivity.
  - reflexivity.
  - discriminate.
Defined.

End ContentScriptInvariants.

(** ** More on the background handler *)
Module BackgroundInvariants.
Import Transcript Protocol Background Samples BackgroundFacts BackgroundMeasures.

(** *** Storing and serving *)

(** A transcript accepted from tab [tabId] is what the queries for that
    tab are answered with from then on, and no other tab's transcript or
    chat history is touched. *)
Theorem transcript_served_and_isolated (st : State) (tabId : Z)
    (payload : TranscriptResult) :
  tabId <> 0 ->
  let st' := fst (onMessage (Some tabId) (TranscriptLoaded payload) st) in
  (forall (tabs : list Tab) (now : Z),
      firstTabId tabs = Some tabId ->
      getTranscriptForCurrentTab st' tabs = Some payload
      /\ snd (queryCallback QGetTranscript tabs now st')
         = [Responded (ResponseData payload)])
  /\ (forall t, t <> tabId ->
        transcriptStore st' !! t = transcriptStore st !! t
        /\ chatHistoryStore st' !! t = chatHistoryStore st !! t).
Proof.
  intros Htab st'.
  assert (Hstore : transcriptStore st' = <[tabId := payload]> (transcriptStore st)
                   /\ (chatHistoryStore st' = chatHistoryStore st
                       \/ chatHistoryStore st' = delete tabId (chatHistoryStore st))).
  { subst st'. unfold onMessage.
    rewrite (proj2 (defined_truthy_Some (Some tabId) tabId)) by done.
    destruct (negb _ && bool_decide _); simpl; auto. }
  destruct Hstore as [Htr Hch]. split.
  - intros tabs now Hactive.
    unfold getTranscriptForCurrentTab, queryCallback. rewrite Hactive.
    rewrite (proj2 (defined_truthy_Some (Some tabId) tabId)) by done.
    simpl. rewrite Htr, lookup_insert_eq. split; reflexivity.
  - intros t Hne. rewrite Htr, lookup_insert_ne by done. split; [reflexivity |].
    destruct Hch as [-> | ->]; [reflexivity | by rewrite lookup_delete_ne].
Qed.

Lemma transcript_served_and_isolated_witness :
  let st := {| transcriptStore := {[ 7 := loaded "XYZ" ]}; chatHistoryStore := ∅ |} in
  let st' := fst (onMessage (Some 3) (TranscriptLoaded (loaded "NEW")) st) in
  (forall (tabs : list Tab) (now : Z),
      firstTabId tabs = Some 3 ->
      getTranscriptForCurrentTab st' tabs = Some (loaded "NEW")
      /\ snd (queryCallback QGetTranscript tabs now st')
         = [Responded (ResponseData (loaded "NEW"))])
  /\ (forall t, t <> 3 ->
        transcriptStore st' !! t = transcriptStore st !! t
        /\ chatHistoryStore st' !! t = chatHistoryStore st !! t).
Proof.
  apply (transcript_served_and_isolated _ 3 (loaded "NEW")). lia.
Defined.

(** *** Reloads of the same video *)

(** A [transcriptLoaded] message whose [videoId] is the one already stored
    for the tab replaces the transcript and keeps the chat history of every
    tab: [chatHistoryStore.delete] is not called. *)
Lemma same_video_keeps_chat_history (st : State) (tabId : Z)
    (previous payload : TranscriptResult) :
  tabId <> 0 ->
  transcriptStore st !! tabId = Some previous ->
  videoId previous = videoId payload ->
  onMessage (Some tabId) (TranscriptLoaded payload) st
  = (setTranscriptStore (<[tabId := payload]> (transcriptStore st)) st,
     [TranscriptStoreSet tabId payload; Forwarded (TranscriptLoaded payload)]).
Proof.
  intros Htab Hprev Hsame. unfold onMessage.
  rewrite (proj2 (defined_truthy_Some (Some tabId) tabId)) by done.
  simpl. rewrite Hprev. simpl.
  by rewrite (bool_decide_eq_true_2 _ Hsame).
Qed.

Lemma last_cons_default {A} (l : list A) (a d d' : A) :
  List.last (a :: l) d = List.last (a :: l) d'.
Proof. revert a. induction l as [| b l IH]; intros a; [reflexivity | apply (IH b)]. Qed.

(** However often a tab reports a transcript with the [videoId] already
    stored for it, every chat history stays as it is, and the transcript
    stored for the tab is the last one reported. *)
Theorem same_video_reloads_keep_chat_history (payloads : list TranscriptResult) :
  forall (st : State) (tabId : Z) (previous : TranscriptResult),
  tabId <> 0 ->
  transcriptStore st !! tabId = Some previous ->
  Forall (fun r => videoId r = videoId previous) payloads ->
  let st' := fst (run st (map (fun r => OnMessage (Some tabId) (TranscriptLoaded r))
                              payloads)) in
  chatHistoryStore st' = chatHistoryStore st
  /\ transcriptStore st' !! tabId = Some (List.last payloads previous).
Proof.
  induction payloads as [| r payloads IH]; intros st tabId previous Htab Hprev Hall.
  - simpl. auto.
  - inversion Hall as [| ? ? Hr Hrest]; subst.
    cbn [map run step].
    rewrite (same_video_keeps_chat_history st tabId previous r Htab Hprev (eq_sym Hr)).
    assert (Hrest' : Forall (fun r' => videoId r' = videoId r) payloads).
    { eapply Forall_impl; [exact Hrest |]. simpl. congruence. }
    specialize (IH (setTranscriptStore (<[tabId := r]> (transcriptStore st)) st)
                  tabId r Htab (lookup_insert_eq _ _ _) Hrest').
    destruct (run _ _) as [st2 effs2]. simpl in IH |- *.
    destruct IH as [Hch Htr]. split; [exact Hch |].
    rewrite Htr. destruct payloads as [| r' payloads]; [reflexivity |].
    f_equal. apply last_cons_default.
Qed.

Lemma same_video_reloads_keep_chat_history_witness :
  let st := fst (run initial
                   [OnMessage (Some 3) (TranscriptLoaded (loaded "XYZ"));
                    OnQueryResult (QSendChatMessage "Summarize")
                      [{| id := Some 3 |}] 1700000000000]) in
  let payloads := [loaded "XYZ"; loaded "XYZ"] in
  let st' := fst (run st (map (fun r => OnMessage (Some 3) (TranscriptLoaded r))
                              payloads)) in
  chatHistoryStore st' = chatHistoryStore st
  /\ transcriptStore st' !! 3 = Some (List.last payloads (loaded "XYZ")).
Proof.
  apply (same_video_reloads_keep_chat_history [loaded "XYZ"; loaded "XYZ"] _ 3 (loaded "XYZ")).
  - lia.
  - reflexivity.
  - repeat constructor.
Defined.

(** *** Chat history *)

Lemma chat_entry_filed (st : State) (t : Z) (tabs : list Tab) (c : ChatMessage) :
  t <> 0 -> firstTabId tabs = Some t ->
  fst (queryCallback (chatQuery c) tabs (timestamp c) st)
  = setChatHistoryStore
      (<[t := default [] (chatHistoryStore st !! t) ++ [c]]> (chatHistoryStore st)) st.
Proof.
  intros Ht Hactive. unfold queryCallback, chatQuery. rewrite Hactive.
  rewrite (proj2 (defined_truthy_Some (Some t) t)) by done.
  destruct c as [[] content timestamp]; reflexivity.
Qed.

(** Chat entries filed while tab [t] is the active one are appended to
    the history of [t] in the order they arrive, user and assistant entries
    alike, with their contents and times; the transcripts and the histories
    of other tabs stay as they were. *)
Theorem chat_history_appended_in_order (st : State) (t : Z) (tabs : list Tab)
    (cs : list ChatMessage) :
  t <> 0 ->
  firstTabId tabs = Some t ->
  let st' := fst (run st (chatEvents tabs cs)) in
  getChatHistoryForCurrentTab st' tabs = getChatHistoryForCurrentTab st tabs ++ cs
  /\ transcriptStore st' = transcriptStore st
  /\ (forall t', t' <> t -> chatHistoryStore st' !! t' = chatHistoryStore st !! t').
Proof.
  intros Ht Hactive. revert st.
  assert (Hget : forall st, getChatHistoryForCurrentTab st tabs
                            = default [] (chatHistoryStore st !! t)).
  { intros st. unfold getChatHistoryForCurrentTab. rewrite Hactive.
    by rewrite (proj2 (defined_truthy_Some (Some t) t)). }
  induction cs as [| c cs IH]; intros st; simpl.
  - rewrite app_nil_r. auto.
  - pose proof (chat_entry_filed st t tabs c Ht Hactive) as Hstep.
    destruct (queryCallback (chatQuery c) tabs (timestamp c) st) as [st1 effs1].
    simpl in Hstep. subst st1.
    specialize (IH (setChatHistoryStore
                      (<[t := default [] (chatHistoryStore st !! t) ++ [c]]>
                         (chatHistoryStore st)) st)).
    destruct (run _ (chatEvents tabs cs)) as [st2 effs2]. simpl in IH |- *.
    destruct IH as (Hhist & Htr & Hother).
    rewrite Hhist, !Hget. simpl. rewrite lookup_insert_eq. simpl.
    split; [by rewrite <- app_assoc | split; [exact Htr |]].
    intros t' Hne. rewrite Hother by done. by rewrite lookup_insert_ne.
Qed.

Lemma chat_history_appended_in_order_witness :
  let st := fst (run initial [OnMessage (Some 3) (TranscriptLoaded (loaded "XYZ"))]) in
  let tabs := [{| id := Some 3 |}] in
  let cs := [{| role := user; content := "Summarize"; timestamp := 1700000000000 |};
             {| role := assistant; content := "It is about..."; timestamp := 1700000004000 |}] in
  let st' := fst (run st (chatEvents tabs cs)) in
  getChatHistoryForCurrentTab st' tabs = getChatHistoryForCurrentTab st tabs ++ cs
  /\ transcriptStore st' = transcriptStore st
  /\ (forall t', t' <> 3 -> chatHistoryStore st' !! t' = chatHistoryStore st !! t').
Proof.
  apply (chat_history_appended_in_order _ 3).
  - lia.
  - reflexivity.
Defined.

(** *** Tab identifiers that count as missing *)

Lemma step_no_falsy_chat_key (st : State) (e : Event) :
  chatHistoryStore st !! 0 = None ->
  chatHistoryStore (fst (step st e)) !! 0 = None.
Proof.
  intros Hzero.
  destruct e as [senderTab m | q tabs now | tabId]; simpl.
  - destruct m; simpl; try assumption.
    destruct (defined_truthy senderTab) as [tab |] eqn:Htab; [| assumption].
    destruct (negb _ && bool_decide _); simpl; [| assumption].
    apply lookup_delete_None. by right.
  - destruct q as [| question | response]; simpl.
    + by destruct (defined_truthy (firstTabId tabs) ≫= _).
    + destruct (defined_truthy (firstTabId tabs)) as [tab |] eqn:Htab; [| assumption].
      apply defined_truthy_Some in Htab as [_ Hne].
      simpl. by rewrite lookup_insert_ne.
    + destruct (defined_truthy (firstTabId tabs)) as [tab |] eqn:Htab; [| assumption].
      apply defined_truthy_Some in Htab as [_ Hne].
      simpl. by rewrite lookup_insert_ne.
  - apply lookup_delete_None. by right.
Qed.

(** In every state the handler can reach from its start, neither map has
    an entry under the tab identifier 0, and a message or a query answer
    that names no tab, or tab 0, leaves both maps as they are. *)
Theorem falsy_tab_never_stored (evs : list Event) (m : Message)
    (q : Query) (now : Z) :
  let st := fst (run initial evs) in
  transcriptStore st !! 0 = None
  /\ chatHistoryStore st !! 0 = None
  /\ fst (onMessage None m st) = st
  /\ fst (onMessage (Some 0) m st) = st
  /\ fst (queryCallback q [] now st) = st
  /\ fst (queryCallback q [{| id := Some 0 |}] now st) = st.
Proof.
  intros st.
  split; [apply reachable_no_falsy_key; by exists evs |].
  split.
  { subst st. generalize initial (eq_refl : chatHistoryStore initial !! 0 = None).
    induction evs as [| e evs IH]; intros st0 H0; [exact H0 |].
    pose proof (step_no_falsy_chat_key st0 e H0) as Hstep.
    simpl. destruct (step st0 e) as [st1 effs1].
    specialize (IH st1 Hstep). by destruct (run st1 evs). }
  repeat split.
  - by destruct m.
  - by destruct m.
  - destruct q; simpl; reflexivity.
  - destruct q; simpl; reflexivity.
Qed.

End BackgroundInvariants.

(** ** From the page's cache to the background's store *)
Module PipelineFacts.
Import Transcript Protocol Samples.
Import ContentScriptInvariants BackgroundFacts BackgroundMeasures BackgroundInvariants.

Lemma deliver_snoc (tabId : Z) (k : list ContentScript.Effect)
    (e : ContentScript.Effect) (st : Background.State) :
  deliver tabId (k ++ [e]) st
  = match e with
    | ContentScript.Sent m => fst (Background.onMessage (Some tabId) m (deliver tabId k st))
    | _ => deliver tabId k st
    end.
Proof. unfold deliver. by rewrite fold_left_app. Qed.

Lemma onMessage_loaded_lookup (tabId : Z) (r : TranscriptResult) (st : Background.State) :
  tabId <> 0 ->
  Background.transcriptStore
    (fst (Background.onMessage (Some tabId) (TranscriptLoaded r) st)) !! tabId = Some r.
Proof.
  intros Htab. unfold Background.onMessage.
  rewrite (proj2 (defined_truthy_Some (Some tabId) tabId)) by done.
  destruct (negb _ && bool_decide _); simpl; apply lookup_insert_eq.
Qed.

Lemma inSync_step (tabId : Z) (st0 : Background.State) (p : ContentScript.Page)
    (e : ContentScript.Event) :
  tabId <> 0 ->
  inSync tabId st0 p -> inSync tabId st0 (ContentScript.step p e).
Proof.
  unfold inSync. intros Htab Hp.
  step_cases p e; try assumption; try discriminate;
    intros r Hr Hs; simpl in *; rewrite ?deliver_snoc; simpl;
    try (injection Hr as <-);
    try congruence;
    try (by apply onMessage_loaded_lookup);
    try (apply Hp; congruence).
Qed.

Lemma inSync_start (tabId : Z) (st0 : Background.State) (loading : bool)
    (l : Url.Location) (t : Z) :
  inSync tabId st0 (ContentScript.load loading l t).
Proof. intros r Hr. destruct loading; discriminate Hr. Qed.

(** The messages of a content script running in tab [tabId] are delivered
    to the background in order.  Then, after every run from the script's
    load, a successful result in the page's cache is the transcript the
    background has stored, and serves, for that tab. *)
Theorem cached_success_is_what_background_serves (tabId : Z)
    (st0 : Background.State) (loading : bool) (l : Url.Location) (t : Z)
    (evs : list ContentScript.Event) (r : TranscriptResult) :
  tabId <> 0 ->
  let p := ContentScript.run (ContentScript.load loading l t) evs in
  let st := deliver tabId (ContentScript.log p) st0 in
  ContentScript.transcriptCache p = Some r ->
  success r = true ->
  Background.transcriptStore st !! tabId = Some r
  /\ Background.getTranscriptForCurrentTab st [{| Background.id := Some tabId |}]
     = Some r.
Proof.
  intros Htab p st Hr Hs.
  assert (Hstored : Background.transcriptStore st !! tabId = Some r).
  { apply (invariant_run (inSync tabId st0)
             (fun q e => inSync_step tabId st0 q e Htab) evs _
             (inSync_start tabId st0 loading l t)); assumption. }
  split; [exact Hstored |].
  unfold Background.getTranscriptForCurrentTab.
  change (Background.firstTabId _) with (Some tabId).
  rewrite (proj2 (defined_truthy_Some (Some tabId) tabId)) by done.
  exact Hstored.
Qed.

Lemma cached_success_is_what_background_serves_witness :
  let evs := [ContentScript.Advance 100; ContentScript.Timeout 0;
              ContentScript.Advance 1500; ContentScript.Timeout 0;
              ContentScript.Settle 0 (ContentScript.Fulfilled (loaded "XYZ"))] in
  let p := ContentScript.run (ContentScript.load false (watch "?v=XYZ") 0) evs in
  let st := deliver 3 (ContentScript.log p) Background.initial in
  Background.transcriptStore st !! 3 = Some (loaded "XYZ")
  /\ Background.getTranscriptForCurrentTab st [{| Background.id := Some 3 |}]
     = Some (loaded "XYZ").
Proof.
  apply (cached_success_is_what_background_serves 3 Background.initial false
           (watch "?v=XYZ") 0).
  - lia.
  - reflexivity.
  - reflexivity.
Defined.

End PipelineFacts.

(** ** Properties of the timestamp links *)
Module TimestampFacts.
Import Protocol TimestampUtils TimestampMeasures.

Lemma append_nil_l (s : string) : "" +:+ s = s.
Proof. reflexivity. Qed.

Lemma append_cons (c : ascii) (a b : string) : String c a +:+ b = String c (a +:+ b).
Proof. reflexivity. Qed.

Ltac string_simpl :=
  simpl; repeat first [rewrite append_cons | rewrite append_nil_l]; simpl.

Lemma append_empty_r (s : string) : s +:+ "" = s.
Proof. induction s as [| c s IH]; string_simpl; [reflexivity | by rewrite IH]. Qed.

Lemma append_assoc (a b c : string) : (a +:+ b) +:+ c = a +:+ b +:+ c.
Proof. induction a as [| x a IH]; string_simpl; [reflexivity | by rewrite IH]. Qed.

Lemma partsText_app (a b : list Node) :
  partsText (a ++ b) = partsText a +:+ partsText b.
Proof.
  induction a as [| n a IH]; string_simpl; [reflexivity |].
  by rewrite IH, append_assoc.
Qed.

Lemma partsText_textPart (pending : string) : partsText (textPart pending) = pending.
Proof.
  destruct pending as [| c pending]; [reflexivity |].
  unfold textPart, partsText, nodeText. apply append_empty_r.
Qed.

(** *** What the pieces of the expression consume *)

Lemma char_spec (c : ascii) (s a r : string) :
  char c s = Some (a, r) -> a = String c "" /\ s = String c r.
Proof.
  destruct s as [| c' s]; simpl; [discriminate |].
  destruct (Ascii.eqb_spec c' c) as [-> | _]; [| discriminate].
  by intros [= <- <-].
Qed.

Lemma digit_spec (s a r : string) :
  digit s = Some (a, r) ->
  exists c, isDigit c = true /\ a = String c "" /\ s = String c r.
Proof.
  destruct s as [| c s]; simpl; [discriminate |].
  destruct (isDigit c) eqn:Hc; [| discriminate].
  intros [= <- <-]. eauto.
Qed.

Lemma digits2_spec (s a r : string) :
  digits2 s = Some (a, r) ->
  exists c1 c2, isDigit c1 = true /\ isDigit c2 = true
                /\ a = String c1 (String c2 "") /\ s = String c1 (String c2 r).
Proof.
  unfold digits2. intros H.
  destruct (digit s) as [[a1 s1] |] eqn:H1; simpl in H; [| discriminate].
  destruct (digit s1) as [[a2 s2] |] eqn:H2; simpl in H; [| discriminate].
  injection H as <- <-.
  apply digit_spec in H1 as (c1 & Hc1 & -> & ->).
  apply digit_spec in H2 as (c2 & Hc2 & -> & ->).
  exists c1, c2. auto.
Qed.

Lemma digitValue_range (c : ascii) : isDigit c = true -> 0 <= digitValue c <= 9.
Proof.
  unfold isDigit, digitValue. intros H.
  apply andb_true_iff in H as [H1 H2].
  apply Nat.leb_le in H1, H2. lia.
Qed.

Lemma digitString_1 (c : ascii) : isDigit c = true -> digitString 1 (String c "").
Proof.
  intros Hc. pose proof (digitValue_range c Hc).
  split; [reflexivity |]. unfold parseInt. simpl. rewrite Hc. lia.
Qed.

Lemma digitString_2 (c1 c2 : ascii) :
  isDigit c1 = true -> isDigit c2 = true ->
  digitString 2 (String c1 (String c2 "")).
Proof.
  intros H1 H2.
  pose proof (digitValue_range c1 H1). pose proof (digitValue_range c2 H2).
  split; [reflexivity |]. unfold parseInt. simpl. rewrite H1, H2. lia.
Qed.

Lemma afterGroup1_spec (open g1 s : string) (m : Match) :
  afterGroup1 open g1 s = Some m ->
  group1 m = g1
  /\ digitString 2 (group2 m)
  /\ match group3 m with Some g3 => digitString 2 g3 | None => True end
  /\ exists body, fullMatch m = open +:+ g1 +:+ body /\ s = body +:+ after m.
Proof.
  unfold afterGroup1. intros H.
  destruct (char ":" s) as [[colon s1] |] eqn:H1; simpl in H; [| discriminate].
  apply char_spec in H1 as [-> ->].
  destruct (digits2 s1) as [[g2 s2] |] eqn:H2; simpl in H; [| discriminate].
  apply digits2_spec in H2 as (c1 & c2 & Hc1 & Hc2 & -> & ->).
  destruct (closeLong open g1 ":" (String c1 (String c2 "")) s2) as [m' |] eqn:Hlong.
  - injection H as <-. unfold closeLong in Hlong.
    destruct (char ":" s2) as [[colon' s3] |] eqn:H3; simpl in Hlong; [| discriminate].
    apply char_spec in H3 as [-> ->].
    destruct (digits2 s3) as [[g3 s4] |] eqn:H4; simpl in Hlong; [| discriminate].
    apply digits2_spec in H4 as (d1 & d2 & Hd1 & Hd2 & -> & ->).
    destruct (char "]" s4) as [[close s5] |] eqn:H5; simpl in Hlong; [| discriminate].
    apply char_spec in H5 as [-> ->].
    injection Hlong as <-. simpl.
    repeat split; try (by apply digitString_2).
    by exists (String ":" (String c1 (String c2 (String ":" (String d1 (String d2 "]")))))).
  - unfold closeShort in H.
    destruct (char "]" s2) as [[close s3] |] eqn:H3; simpl in H; [| discriminate].
    apply char_spec in H3 as [-> ->].
    injection H as <-. simpl.
    repeat split; try (by apply digitString_2).
    by exists (String ":" (String c1 (String c2 "]"))).
Qed.

Lemma matchAt_spec (s : string) (m : Match) :
  matchAt s = Some m ->
  (digitString 1 (group1 m) \/ digitString 2 (group1 m))
  /\ digitString 2 (group2 m)
  /\ match group3 m with Some g3 => digitString 2 g3 | None => True end
  /\ exists c body, fullMatch m = String c body /\ s = String c (body +:+ after m).
Proof.
  unfold matchAt. intros H.
  destruct (char "[" s) as [[open s0] |] eqn:H0; simpl in H; [| discriminate].
  apply char_spec in H0 as [-> ->].
  destruct (digits2 s0) as [[g1 s1] |] eqn:H2; simpl in H.
  - destruct (afterGroup1 "[" g1 s1) as [m' |] eqn:Hm'.
    + injection H as <-.
      apply digits2_spec in H2 as (c1 & c2 & Hc1 & Hc2 & -> & ->).
      apply afterGroup1_spec in Hm' as (-> & Hg2 & Hg3 & body & -> & ->).
      split; [right; by apply digitString_2 |].
      split; [exact Hg2 | split; [exact Hg3 |]].
      by exists "["%char, (String c1 (String c2 body)).
    + destruct (digit s0) as [[g1' s1'] |] eqn:H1; simpl in H; [| discriminate].
      apply digit_spec in H1 as (c & Hc & -> & ->).
      apply afterGroup1_spec in H as (-> & Hg2 & Hg3 & body & -> & ->).
      split; [left; by apply digitString_1 |].
      split; [exact Hg2 | split; [exact Hg3 |]].
      by exists "["%char, (String c body).
  - destruct (digit s0) as [[g1' s1'] |] eqn:H1; simpl in H; [| discriminate].
    apply digit_spec in H1 as (c & Hc & -> & ->).
    apply afterGroup1_spec in H as (-> & Hg2 & Hg3 & body & -> & ->).
    split; [left; by apply digitString_1 |].
    split; [exact Hg2 | split; [exact Hg3 |]].
    by exists "["%char, (String c body).
Qed.

Lemma totalSeconds_range (s : string) (m : Match) :
  matchAt s = Some m -> 0 <= totalSeconds m <= 362439.
Proof.
  intros H. apply matchAt_spec in H as (H1 & [_ H2] & H3 & _).
  unfold totalSeconds.
  assert (H1' : 0 <= parseInt (group1 m) < 100).
  { destruct H1 as [[_ H1] | [_ H1]]; simpl in H1; lia. }
  simpl in H2.
  destruct (group3 m) as [g3 |]; [destruct H3 as [_ H3]; simpl in H3 |]; lia.
Qed.

(** *** The pass over the text *)

Lemma scan_skip_all (videoId : string) (s : string) :
  forall (skip : nat) (pending : string) (index : nat),
  (String.length s <= skip)%nat ->
  scan videoId s skip pending index = textPart pending.
Proof.
  induction s as [| c s IH]; intros skip pending index Hlen; [reflexivity |].
  destruct skip as [| skip]; simpl in Hlen; [lia |].
  simpl. apply IH. lia.
Qed.

Lemma scan_text (videoId : string) (s : string) :
  forall (skip : nat) (pending : string) (index : nat) (pre post : string),
  s = pre +:+ post -> String.length pre = skip ->
  partsText (scan videoId s skip pending index) = pending +:+ post.
Proof.
  induction s as [| c s IH]; intros skip pending index pre post Hs Hlen.
  - destruct pre as [| c' pre]; [| rewrite append_cons in Hs; discriminate].
    rewrite append_nil_l in Hs. subst post.
    simpl. by rewrite partsText_textPart, append_empty_r.
  - destruct skip as [| skip].
    + destruct pre as [| c' pre]; [| discriminate].
      rewrite append_nil_l in Hs. subst post. simpl.
      destruct (matchAt (String c s)) as [m |] eqn:Hm.
      * apply matchAt_spec in Hm as (_ & _ & _ & c' & body & Hfull & Heq).
        injection Heq as <- ->.
        rewrite partsText_app, partsText_textPart. string_simpl.
        rewrite (IH _ "" _ body (after m) eq_refl)
          by (rewrite Hfull; simpl; lia).
        rewrite Hfull. string_simpl. reflexivity.
      * rewrite (IH 0%nat _ _ "" s eq_refl eq_refl).
        rewrite append_assoc. reflexivity.
    + destruct pre as [| c' pre]; [discriminate |].
      rewrite append_cons in Hs. simpl in Hlen.
      injection Hs as <- ->. injection Hlen as Hlen.
      simpl. by apply (IH _ _ _ pre post).
Qed.

Lemma Forall_textPart (videoId pending : string) :
  Forall (wellFormed videoId) (textPart pending).
Proof. destruct pending; repeat constructor. discriminate. Qed.

Lemma scan_wellFormed (videoId : string) (s : string) :
  forall (skip : nat) (pending : string) (index : nat),
  Forall (wellFormed videoId) (scan videoId s skip pending index).
Proof.
  induction s as [| c s IH]; intros skip pending index; simpl.
  - apply Forall_textPart.
  - destruct skip as [| skip]; [| apply IH].
    destruct (matchAt (String c s)) as [m |] eqn:Hm; [| apply IH].
    apply Forall_app. split; [apply Forall_textPart |].
    constructor; [| apply IH].
    split; [by eapply totalSeconds_range | reflexivity].
Qed.

Lemma parse_wellFormed (text videoId : string) (parts : list Node) :
  parseTimestampLinks text videoId = Fragment parts ->
  Forall (wellFormed videoId) parts.
Proof.
  unfold parseTimestampLinks.
  pose proof (scan_wellFormed videoId text 0 "" 0) as Hwf.
  destruct (scan videoId text 0 "" 0) as [| n l]; [discriminate |].
  by intros [= <-].
Qed.

(** [parseTimestampLinks] loses nothing: the text of the parts, link labels
    included, is the text given; a text part is never empty; every link
    carries between 0 and 362439 seconds (99:99:99) and the watch URL of
    the video at that time; and the bare string is returned for the empty
    text only. *)
Theorem parseTimestampLinks_keeps_text (text videoId : string) :
  textContent (parseTimestampLinks text videoId) = text
  /\ (forall parts, parseTimestampLinks text videoId = Fragment parts ->
        parts <> [] /\ Forall (wellFormed videoId) parts)
  /\ ((exists t, parseTimestampLinks text videoId = Plain t) <-> text = "").
Proof.
  unfold parseTimestampLinks.
  pose proof (scan_text videoId text 0 "" 0 "" text eq_refl eq_refl) as Htext.
  pose proof (scan_wellFormed videoId text 0 "" 0) as Hwf.
  rewrite append_nil_l in Htext.
  destruct (scan videoId text 0 "" 0) as [| n parts] eqn:Hscan.
  - simpl in Htext. subst text. split; [reflexivity |].
    split; [discriminate |]. split; [reflexivity | eauto].
  - split; [exact Htext |].
    split; [intros parts' [= <-]; by split |].
    split; [intros [t Ht]; discriminate Ht |].
    intros ->. discriminate Hscan.
Qed.

(** *** Formatting and parsing back *)

Lemma parse_single_match (s videoId : string) (m : Match) :
  matchAt s = Some m -> after m = "" ->
  parseTimestampLinks s videoId
  = Fragment [Anchor 0 (linkHref videoId (totalSeconds m)) (fullMatch m)
                (totalSeconds m)].
Proof.
  intros Hm Hafter. unfold parseTimestampLinks.
  pose proof (matchAt_spec s m Hm) as (_ & _ & _ & c & body & Hfull & Hs).
  rewrite Hafter, append_empty_r in Hs. subst s.
  cbn [scan]. rewrite Hm. cbn [textPart app].
  rewrite scan_skip_all by (rewrite Hfull; simpl; lia).
  reflexivity.
Qed.

Lemma parseInt_1 (c : ascii) : isDigit c = true -> parseInt (String c "") = digitValue c.
Proof. intros H. unfold parseInt. simpl. rewrite H. lia. Qed.

Lemma parseInt_2 (c1 c2 : ascii) :
  isDigit c1 = true -> isDigit c2 = true ->
  parseInt (String c1 (String c2 "")) = 10 * digitValue c1 + digitValue c2.
Proof. intros H1 H2. unfold parseInt. simpl. rewrite H1, H2. lia. Qed.

(** The decimal numerals below one hundred, checked one by one. *)
Lemma numerals_below_100 (k : Z) :
  0 <= k < 100 ->
  (exists c1 c2, isDigit c1 = true /\ isDigit c2 = true
                 /\ padStart2 (toString k) = String c1 (String c2 "")
                 /\ 10 * digitValue c1 + digitValue c2 = k)
  /\ (k < 10 ->
      exists c, isDigit c = true /\ toString k = String c "" /\ digitValue c = k)
  /\ (10 <= k -> padStart2 (toString k) = toString k).
Proof.
  intros Hk.
  assert (Hall : forallb numeralCheck (seq 0 100) = true) by (vm_compute; reflexivity).
  rewrite forallb_forall in Hall.
  specialize (Hall (Z.to_nat k)).
  assert (Hin : In (Z.to_nat k) (seq 0 100)) by (apply in_seq; lia).
  specialize (Hall Hin). unfold numeralCheck in Hall.
  rewrite Z2Nat.id in Hall by lia.
  destruct (padStart2 (toString k)) as [| c1 [| c2 [| ? ?]]] eqn:Hpad; try discriminate.
  apply andb_true_iff in Hall as [Hall Hshort].
  apply andb_true_iff in Hall as [Hall Hval].
  apply andb_true_iff in Hall as [H1 H2].
  apply Z.eqb_eq in Hval.
  split; [exists c1, c2; auto |].
  destruct (k <? 10) eqn:Hlt.
  - apply Z.ltb_lt in Hlt. split; [| lia]. intros _.
    destruct (toString k) as [| c [| ? ?]] eqn:Hstr; try discriminate.
    apply andb_true_iff in Hshort as [Hc Hv]. apply Z.eqb_eq in Hv.
    exists c. auto.
  - apply Z.ltb_ge in Hlt. split; [lia |]. intros _.
    destruct (String.eqb_spec (toString k) (String c1 (String c2 ""))) as [-> | _];
      [reflexivity | discriminate].
Qed.

Ltac run_match :=
  unfold matchAt, afterGroup1, closeLong, closeShort, digits2, digit, char;
  repeat (string_simpl;
          repeat match goal with
                 | H : isDigit ?c = true |- context [isDigit ?c] => rewrite H
                 end);
  try reflexivity.

Lemma matchAt_short_1 (d c1 c2 : ascii) :
  isDigit d = true -> isDigit c1 = true -> isDigit c2 = true ->
  matchAt ("[" +:+ String d "" +:+ ":" +:+ String c1 (String c2 "") +:+ "]")
  = Some {| fullMatch := "[" +:+ String d "" +:+ ":" +:+ String c1 (String c2 "") +:+ "]";
            group1 := String d ""; group2 := String c1 (String c2 "");
            group3 := None; after := "" |}.
Proof. intros Hd H1 H2. run_match. Qed.

Lemma matchAt_short_2 (d1 d2 c1 c2 : ascii) :
  isDigit d1 = true -> isDigit d2 = true -> isDigit c1 = true -> isDigit c2 = true ->
  matchAt ("[" +:+ String d1 (String d2 "") +:+ ":" +:+ String c1 (String c2 "") +:+ "]")
  = Some {| fullMatch := "[" +:+ String d1 (String d2 "") +:+ ":"
                         +:+ String c1 (String c2 "") +:+ "]";
            group1 := String d1 (String d2 ""); group2 := String c1 (String c2 "");
            group3 := None; after := "" |}.
Proof. intros Hd1 Hd2 H1 H2. run_match. Qed.

Lemma matchAt_long_1 (d m1 m2 c1 c2 : ascii) :
  isDigit d = true -> isDigit m1 = true -> isDigit m2 = true ->
  isDigit c1 = true -> isDigit c2 = true ->
  matchAt ("[" +:+ String d "" +:+ ":" +:+ String m1 (String m2 "") +:+ ":"
           +:+ String c1 (String c2 "") +:+ "]")
  = Some {| fullMatch := "[" +:+ String d "" +:+ ":" +:+ String m1 (String m2 "")
                         +:+ ":" +:+ String c1 (String c2 "") +:+ "]";
            group1 := String d ""; group2 := String m1 (String m2 "");
            group3 := Some (String c1 (String c2 "")); after := "" |}.
Proof. intros Hd Hm1 Hm2 H1 H2. run_match. Qed.

Lemma matchAt_long_2 (d1 d2 m1 m2 c1 c2 : ascii) :
  isDigit d1 = true -> isDigit d2 = true -> isDigit m1 = true -> isDigit m2 = true ->
  isDigit c1 = true -> isDigit c2 = true ->
  matchAt ("[" +:+ String d1 (String d2 "") +:+ ":" +:+ String m1 (String m2 "") +:+ ":"
           +:+ String c1 (String c2 "") +:+ "]")
  = Some {| fullMatch := "[" +:+ String d1 (String d2 "") +:+ ":"
                         +:+ String m1 (String m2 "")
                         +:+ ":" +:+ String c1 (String c2 "") +:+ "]";
            group1 := String d1 (String d2 ""); group2 := String m1 (String m2 "");
            group3 := Some (String c1 (String c2 "")); after := "" |}.
Proof. intros Hd1 Hd2 Hm1 Hm2 H1 H2. run_match. Qed.

(** A timestamp written by [formatTimestamp] for a whole number of seconds
    below one hundred hours is read back by [parseTimestampLinks] as one
    link to exactly that second. *)
Theorem format_then_parse (n : Z) (videoId : string) :
  0 <= n < 360000 ->
  parseTimestampLinks ("[" +:+ formatTimestamp n +:+ "]") videoId
  = Fragment [Anchor 0 (linkHref videoId n) ("[" +:+ formatTimestamp n +:+ "]") n].
Proof.
  intros Hn.
  assert (Hh : 0 <= n / 3600 < 100)
    by (split; [apply Z.div_pos; lia | apply Z.div_lt_upper_bound; lia]).
  assert (Hrem1 : Z.rem n 3600 = n mod 3600) by (apply Z.rem_mod_nonneg; lia).
  assert (Hrem2 : Z.rem n 60 = n mod 60) by (apply Z.rem_mod_nonneg; lia).
  pose proof (Z.mod_pos_bound n 3600 ltac:(lia)) as Hm3600.
  pose proof (Z.mod_pos_bound n 60 ltac:(lia)) as Hs.
  assert (Hm : 0 <= n mod 3600 / 60 < 60)
    by (split; [apply Z.div_pos; lia | apply Z.div_lt_upper_bound; lia]).
  assert (Hsum : n = n / 3600 * 3600 + n mod 3600 / 60 * 60 + n mod 60).
  { pose proof (Z.div_mod n 3600 ltac:(lia)) as H1.
    pose proof (Z.div_mod (n mod 3600) 60 ltac:(lia)) as H2.
    assert (H3 : (n mod 3600) mod 60 = n mod 60).
    { apply Z.mod_mod_divide. exists 60. reflexivity. }
    lia. }
  unfold formatTimestamp. rewrite Hrem1, Hrem2.
  destruct (numerals_below_100 (n mod 3600 / 60) ltac:(lia))
    as ((m1 & m2 & Hm1 & Hm2 & Hmpad & Hmval) & Hmshort & Hmlong).
  destruct (numerals_below_100 (n mod 60) ltac:(lia))
    as ((c1 & c2 & Hc1 & Hc2 & Hcpad & Hcval) & _ & _).
  destruct (numerals_below_100 (n / 3600) ltac:(lia))
    as ((h1 & h2 & Hh1 & Hh2 & Hhpad & Hhval) & Hhshort & Hhlong).
  rewrite Hcpad.
  destruct (0 <? n / 3600) eqn:Hhours; rewrite !append_assoc.
  - apply Z.ltb_lt in Hhours. rewrite Hmpad.
    destruct (Z.lt_ge_cases (n / 3600) 10) as [Hsmall | Hbig].
    + destruct (Hhshort Hsmall) as (d & Hd & Hstr & Hdval). rewrite Hstr.
      rewrite (parse_single_match _ videoId _ (matchAt_long_1 d m1 m2 c1 c2 Hd Hm1 Hm2 Hc1 Hc2))
        by reflexivity.
      unfold totalSeconds; cbn [group1 group2 group3 fullMatch].
      rewrite (parseInt_1 d Hd), (parseInt_2 m1 m2 Hm1 Hm2), (parseInt_2 c1 c2 Hc1 Hc2).
      replace (digitValue d * 3600 + (10 * digitValue m1 + digitValue m2) * 60
               + (10 * digitValue c1 + digitValue c2)) with n by lia.
      reflexivity.
    + rewrite <- (Hhlong Hbig), Hhpad.
      rewrite (parse_single_match _ videoId _
                 (matchAt_long_2 h1 h2 m1 m2 c1 c2 Hh1 Hh2 Hm1 Hm2 Hc1 Hc2))
        by reflexivity.
      unfold totalSeconds; cbn [group1 group2 group3 fullMatch].
      rewrite (parseInt_2 h1 h2 Hh1 Hh2), (parseInt_2 m1 m2 Hm1 Hm2),
        (parseInt_2 c1 c2 Hc1 Hc2).
      replace ((10 * digitValue h1 + digitValue h2) * 3600
               + (10 * digitValue m1 + digitValue m2) * 60
               + (10 * digitValue c1 + digitValue c2)) with n by lia.
      reflexivity.
  - apply Z.ltb_ge in Hhours.
    destruct (Z.lt_ge_cases (n mod 3600 / 60) 10) as [Hsmall | Hbig].
    + destruct (Hmshort Hsmall) as (d & Hd & Hstr & Hdval). rewrite Hstr.
      rewrite (parse_single_match _ videoId _ (matchAt_short_1 d c1 c2 Hd Hc1 Hc2))
        by reflexivity.
      unfold totalSeconds; cbn [group1 group2 group3 fullMatch].
      rewrite (parseInt_1 d Hd), (parseInt_2 c1 c2 Hc1 Hc2).
      replace (0 * 3600 + digitValue d * 60 + (10 * digitValue c1 + digitValue c2))
        with n by lia.
      reflexivity.
    + rewrite <- (Hmlong Hbig), Hmpad.
      rewrite (parse_single_match _ videoId _
                 (matchAt_short_2 m1 m2 c1 c2 Hm1 Hm2 Hc1 Hc2))
        by reflexivity.
      unfold totalSeconds; cbn [group1 group2 group3 fullMatch].
      rewrite (parseInt_2 m1 m2 Hm1 Hm2), (parseInt_2 c1 c2 Hc1 Hc2).
      replace (0 * 3600 + (10 * digitValue m1 + digitValue m2) * 60
               + (10 * digitValue c1 + digitValue c2)) with n by lia.
      reflexivity.
Qed.

Lemma format_then_parse_witness :
  parseTimestampLinks ("[" +:+ formatTimestamp 3725 +:+ "]") "dQw4w9WgXcQ"
  = Fragment [Anchor 0 (linkHref "dQw4w9WgXcQ" 3725)
                ("[" +:+ formatTimestamp 3725 +:+ "]") 3725].
Proof. apply format_then_parse. lia. Defined.

(** *** Text without timestamps, and clicks *)

Lemma scan_no_bracket (videoId : string) (s : string) :
  forall (pending : string) (index : nat),
  hasChar "[" s = false ->
  scan videoId s 0 pending index = textPart (pending +:+ s).
Proof.
  induction s as [| c s IH]; intros pending index Hno.
  - simpl. by rewrite append_empty_r.
  - simpl in Hno. apply orb_false_iff in Hno as [Hc Hno].
    cbn [scan].
    assert (Hm : matchAt (String c s) = None).
    { unfold matchAt, char. by rewrite Hc. }
    rewrite Hm, (IH _ _ Hno), append_assoc. reflexivity.
Qed.

(** A text with no opening bracket gets no link: it is rendered as one
    text part that holds all of it. *)
Theorem no_bracket_no_link (text videoId : string) :
  hasChar "[" text = false ->
  text <> "" ->
  parseTimestampLinks text videoId = Fragment [Text text].
Proof.
  intros Hno Hne. unfold parseTimestampLinks.
  rewrite (scan_no_bracket videoId text "" 0 Hno), append_nil_l.
  destruct text; [contradiction | reflexivity].
Qed.

Lemma no_bracket_no_link_witness :
  parseTimestampLinks "The talk starts at 1:23." "dQw4w9WgXcQ"
  = Fragment [Text "The talk starts at 1:23."].
Proof.
  apply no_bracket_no_link.
  - reflexivity.
  - discriminate.
Defined.

(** A click on any link that [parseTimestampLinks] renders, while a tab
    with a usable identifier is the active one, sends that tab a
    [seekVideo] message, on which the content script calls
    [seekVideoToTimestamp] with the seconds the link carries, between 0 and
    362439, and does nothing else. *)
Theorem click_on_link_seeks (text videoId : string) (parts : list Node)
    (key : nat) (href label : string) (seconds : Z)
    (tabs : list Background.Tab) (tabId : Z) (p : ContentScript.Page) :
  parseTimestampLinks text videoId = Fragment parts ->
  In (Anchor key href label seconds) parts ->
  Background.firstTabId tabs = Some tabId ->
  tabId <> 0 ->
  exists m,
    seekToTimestamp seconds tabs = Some (tabId, m)
    /\ ContentScript.step p (ContentScript.OnMessage m)
       = ContentScript.emit (ContentScript.Seek (inject_Z seconds)) p
    /\ 0 <= seconds <= 362439.
Proof.
  intros Hparse Hin Hactive Htab.
  exists (SeekVideo (Some (inject_Z seconds))).
  split; [| split; [reflexivity |]].
  - unfold seekToTimestamp. rewrite Hactive.
    by rewrite (proj2 (BackgroundFacts.defined_truthy_Some (Some tabId) tabId)).
  - pose proof (parse_wellFormed text videoId parts Hparse) as Hall.
    rewrite List.Forall_forall in Hall.
    by destruct (Hall _ Hin).
Qed.

Lemma click_on_link_seeks_witness :
  exists m,
    seekToTimestamp 83 [{| Background.id := Some 3 |}] = Some (3, m)
    /\ ContentScript.step (ContentScript.load false (Samples.watch "?v=XYZ") 0)
         (ContentScript.OnMessage m)
       = ContentScript.emit (ContentScript.Seek (inject_Z 83))
           (ContentScript.load false (Samples.watch "?v=XYZ") 0)
    /\ 0 <= 83 <= 362439.
Proof.
  apply (click_on_link_seeks "See [1:23]." "XYZ"
           [Text "See "; Anchor 4 (linkHref "XYZ" 83) "[1:23]" 83; Text "."]
           4 (linkHref "XYZ" 83) "[1:23]" 83 [{| Background.id := Some 3 |}] 3).
  - reflexivity.
  - right. left. reflexivity.
  - reflexivity.
  - lia.
Defined.

End TimestampFacts.

(** ** Properties of the stored chats *)
Module VideoChatFacts.
Import Background VideoChat.

Lemma findIndex_Some (id : string) (chats : list StoredChat) (i : nat) :
  findIndex id chats = Some i ->
  exists c, chats !! i = Some c /\ chatId c = id
            /\ forall j c', (j < i)%nat -> chats !! j = Some c' -> chatId c' <> id.
Proof.
  revert i. induction chats as [| c chats IH]; intros i; simpl; [discriminate |].
  destruct (String.eqb_spec (chatId c) id) as [Heq | Hne].
  - intros [= <-]. exists c. repeat split; auto. intros j c' Hj. lia.
  - destruct (findIndex id chats) as [k |]; simpl; [| discriminate].
    intros [= <-]. destruct (IH k eq_refl) as (c0 & Hk & Hid & Hfirst).
    exists c0. repeat split; auto.
    intros [| j] c' Hj; simpl; [by intros [= <-] | intros Hc'].
    apply (Hfirst j c'); [lia | exact Hc'].
Qed.

Lemma findIndex_None (id : string) (chats : list StoredChat) :
  findIndex id chats = None -> ~ In id (map chatId chats).
Proof.
  induction chats as [| c chats IH]; simpl; [tauto |].
  destruct (String.eqb_spec (chatId c) id) as [Heq | Hne]; [discriminate |].
  destruct (findIndex id chats); simpl; [discriminate |].
  intros _ [H | H]; [contradiction | by apply IH].
Qed.

Lemma findIndex_first (id : string) (chats : list StoredChat) (i : nat) (c : StoredChat) :
  chats !! i = Some c -> chatId c = id ->
  (forall j c', (j < i)%nat -> chats !! j = Some c' -> chatId c' <> id) ->
  findIndex id chats = Some i.
Proof.
  revert i. induction chats as [| c0 chats IH]; intros i Hi Hid Hfirst; [discriminate |].
  simpl. destruct i as [| i].
  - injection Hi as ->. by rewrite (proj2 (String.eqb_eq _ _) Hid).
  - simpl in Hi.
    destruct (String.eqb_spec (chatId c0) id) as [Heq | Hne].
    + by destruct (Hfirst 0%nat c0 ltac:(lia) eq_refl).
    + rewrite (IH i Hi Hid); [reflexivity |].
      intros j c' Hj Hc'. apply (Hfirst (S j) c'); [lia | exact Hc'].
Qed.

Lemma NoDup_take {A} (l : list A) (n : nat) : NoDup l -> NoDup (take n l).
Proof.
  intros H. rewrite <- (take_drop n l) in H. by apply NoDup_app in H as [H _].
Qed.

Lemma map_chatId_insert (chats : list StoredChat) (i : nat) (c c' : StoredChat) :
  chats !! i = Some c -> chatId c' = chatId c ->
  map chatId (<[i := c']> chats) = map chatId chats.
Proof.
  revert i. induction chats as [| c0 chats IH]; intros [| i] Hi Hid; try discriminate.
  - injection Hi as ->. simpl. by rewrite Hid.
  - simpl in *. by rewrite (IH i Hi Hid).
Qed.

(** Whatever [saveCurrentChat] writes has at most fifty chats, and their
    identifiers are distinct if those read from storage were. *)
Theorem saved_chats_capped_and_distinct (videoInfo : option VideoInfo)
    (currentChatId : option string) (msgs : list ChatMessage)
    (stored : option (list StoredChat)) (nowId nowCreated nowUpdated : Z)
    (written : list StoredChat) (current : option string) :
  saveCurrentChat videoInfo currentChatId msgs stored nowId nowCreated nowUpdated
  = Some (written, current) ->
  (length written <= 50)%nat
  /\ (NoDup (map chatId (default [] stored)) -> NoDup (map chatId written)).
Proof.
  unfold saveCurrentChat. intros Hsave. cbv zeta in Hsave.
  destruct videoInfo as [info |]; [| discriminate].
  destruct (negb _ || _); [discriminate |].
  set (id := chatIdFor info currentChatId nowId) in *.
  destruct (findIndex id (default [] stored)) as [i |] eqn:Hfind;
    injection Hsave as <- <-.
  - split; [apply List.firstn_le_length |].
    intros Hnodup.
    apply findIndex_Some in Hfind as (c & Hi & Hid & _).
    rewrite <- List.firstn_map. apply NoDup_take.
    erewrite map_chatId_insert; [exact Hnodup | exact Hi | by rewrite Hid].
  - simpl. split.
    + pose proof (List.firstn_le_length 49 (default [] stored)). simpl. lia.
    + intros Hnodup. rewrite <- List.firstn_map.
      apply findIndex_None in Hfind.
      constructor; [| by apply NoDup_take].
      rewrite list_elem_of_In. intros Hin. apply Hfind.
      rewrite <- (take_drop 49 (map chatId (default [] stored))).
      apply in_or_app. by left.
Qed.

(** With at most fifty chats in storage, the chat [saveCurrentChat] writes
    is found again under its identifier: it holds the messages given and the
    video's identifier, its [updatedAt] is the time of the save, and its
    [createdAt] is the one of the chat it replaces, or the time of the save
    for a new chat. *)
Theorem saved_chat_found_again (info : VideoInfo)
    (currentChatId : option string) (msgs : list ChatMessage)
    (stored : option (list StoredChat)) (nowId nowCreated nowUpdated : Z)
    (written : list StoredChat) (current : option string) :
  saveCurrentChat (Some info) currentChatId msgs stored nowId nowCreated nowUpdated
  = Some (written, current) ->
  (length (default [] stored) <= 50)%nat ->
  exists chat,
    findChat (chatIdFor info currentChatId nowId) written = Some chat
    /\ messages chat = msgs
    /\ chatVideoId chat = infoVideoId info
    /\ updatedAt chat = nowUpdated
    /\ createdAt chat
       = match findChat (chatIdFor info currentChatId nowId) (default [] stored) with
         | Some old => createdAt old
         | None => nowCreated
         end.
Proof.
  unfold saveCurrentChat, findChat. intros Hsave Hlen. cbv zeta in Hsave.
  destruct (negb _ || _); [discriminate |].
  set (id := chatIdFor info currentChatId nowId) in *.
  set (chats := default [] stored) in *.
  destruct (findIndex id chats) as [i |] eqn:Hfind.
  - injection Hsave as <- <-.
    pose proof (findIndex_Some _ _ _ Hfind) as (old & Hi & Hid & Hfirst).
    pose proof (lookup_lt_Some _ _ _ Hi) as Hlt.
    rewrite Hi. simpl.
    set (chat := {| chatId := id; chatVideoId := infoVideoId info;
                    chatVideoTitle := orElse (infoVideoTitle info) "Untitled Video";
                    messages := msgs; createdAt := createdAt old;
                    updatedAt := nowUpdated |}).
    assert (Hnew : take 50 (<[i := chat]> chats) !! i = Some chat).
    { rewrite lookup_take_lt by lia. by apply list_lookup_insert_eq. }
    rewrite (findIndex_first id _ i chat Hnew eq_refl).
    + simpl. rewrite Hnew. exists chat. repeat split. by rewrite Hi.
    + intros j c' Hj Hc'. apply (Hfirst j c' Hj).
      rewrite lookup_take_lt in Hc' by lia.
      by rewrite list_lookup_insert_ne in Hc' by lia.
  - injection Hsave as <- <-. simpl.
    rewrite String.eqb_refl. simpl. eexists. repeat split.
Qed.

Lemma saved_chat_found_again_witness :
  let info := {| infoVideoId := "XYZ"; infoVideoTitle := Some "A title" |} in
  let msgs := [{| role := user; content := "Summarize"; timestamp := 1700000000000 |};
               {| role := assistant; content := "It is about..."; timestamp := 1700000004000 |}] in
  let old := {| chatId := "XYZ-1700000000000"; chatVideoId := "XYZ";
                chatVideoTitle := "A title"; messages := [];
                createdAt := 1700000000000; updatedAt := 1700000000000 |} in
  exists chat,
    findChat (chatIdFor info (Some "XYZ-1700000000000") 1700000005000)
      [{| chatId := "XYZ-1700000000000"; chatVideoId := "XYZ";
          chatVideoTitle := "A title"; messages := msgs;
          createdAt := 1700000000000; updatedAt := 1700000005002 |}] = Some chat
    /\ messages chat = msgs
    /\ chatVideoId chat = infoVideoId info
    /\ updatedAt chat = 1700000005002
    /\ createdAt chat
       = match findChat (chatIdFor info (Some "XYZ-1700000000000") 1700000005000)
                 (default [] (Some [old])) with
         | Some old => createdAt old
         | None => 1700000005001
         end.
Proof.
  apply (saved_chat_found_again
           {| infoVideoId := "XYZ"; infoVideoTitle := Some "A title" |}
           (Some "XYZ-1700000000000")
           [{| role := user; content := "Summarize"; timestamp := 1700000000000 |};
            {| role := assistant; content := "It is about..."; timestamp := 1700000004000 |}]
           (Some [{| chatId := "XYZ-1700000000000"; chatVideoId := "XYZ";
                     chatVideoTitle := "A title"; messages := [];
                     createdAt := 1700000000000; updatedAt := 1700000000000 |}])
           1700000005000 1700000005001 1700000005002 _
           (Some "XYZ-1700000000000")).
  - reflexivity.
  - simpl. lia.
Defined.

Lemma saved_chats_capped_and_distinct_witness :
  let stored := ChatSamples.storedChats 50 in
  let written := ChatSamples.chatOf "XYZ" 1700000005000 :: take 49 stored in
  saveCurrentChat (Some {| infoVideoId := "XYZ"; infoVideoTitle := None |}) None
    [ChatSamples.question] (Some stored) 1700000005000 1700000005000 1700000005000
  = Some (written, Some "XYZ-1700000005000")
  /\ length stored = 50%nat
  /\ NoDup (map chatId stored)
  /\ (length written <= 50)%nat
  /\ NoDup (map chatId written).
Proof.
  assert (Hsave :
    saveCurrentChat (Some {| infoVideoId := "XYZ"; infoVideoTitle := None |}) None
      [ChatSamples.question] (Some (ChatSamples.storedChats 50))
      1700000005000 1700000005000 1700000005000
    = Some (ChatSamples.chatOf "XYZ" 1700000005000
              :: take 49 (ChatSamples.storedChats 50),
            Some "XYZ-1700000005000")) by (vm_compute; reflexivity).
  assert (Hdistinct : NoDup (map chatId (ChatSamples.storedChats 50))).
  { apply (bool_decide_unpack _). vm_compute. exact I. }
  destruct (saved_chats_capped_and_distinct _ _ _ _ _ _ _ _ _ Hsave)
    as [Hcap Hkeep].
  split; [exact Hsave |]. split; [reflexivity |]. split; [exact Hdistinct |].
  split; [exact Hcap | exact (Hkeep Hdistinct)].
Defined.

End VideoChatFacts.
